(** * Flow graph builder of the Sankey diagram (SankeyDiagram.tsx)

    A shallow embedding of the data-shaping part of the [SankeyDiagram]
    component: the main rendering effect turns the list of grant items and
    the recipient profile mapping into the graph (nodes, links) handed to the
    Sankey layout.  Rendering, fetching and resizing are not modelled.

    Modelling choices.
    - A JavaScript string is a [string]: a sequence of code units below 256.
    - A JavaScript number is a binary64 value, [spec_float] of the standard
      library with precision 53 and maximal exponent 1024; [parseFloat]
      follows the StrDecimalLiteral grammar and rounds to nearest, ties to
      even.
    - [nodesMap] is a JavaScript [Map]: an association list in insertion
      order, since [Array.from(map.values())] exposes that order.
    - [recipientProfiles] is an object used as a dictionary: a [gmap];
      [nodesWithLinks] is a [Set]: a [gset].
    - Every [forEach] is a left fold threading the mutated state. *)

From Stdlib Require Import ZArith Ascii Floats.SpecFloat DecimalString.
From stdpp Require Import gmap strings list.

Local Open Scope Z_scope.

(** ** JavaScript strings *)

Module JsString.

(** Truthiness of a string: every string but the empty one. *)
Definition truthy (s : string) : bool :=
  match s with
  | EmptyString => false
  | String _ _ => true
  end.

Definition code (c : ascii) : Z := Z.of_N (Ascii.N_of_ascii c).

Definition char_of_code (z : Z) : ascii := Ascii.ascii_of_N (Z.to_N z).

(** [toLowerCase] on one code unit: A-Z, and the upper-case letters of the
    Latin-1 block (all of U+00C0..U+00DE but the multiplication sign). *)
Definition lowerChar (c : ascii) : ascii :=
  let n := code c in
  if ((65 <=? n) && (n <=? 90)) || ((192 <=? n) && (n <=? 222) && negb (n =? 215))
  then char_of_code (n + 32)
  else c.

Fixpoint toLowerCase (s : string) : string :=
  match s with
  | EmptyString => EmptyString
  | String c s' => String (lowerChar c) (toLowerCase s')
  end.

(** White space and line terminators that [parseFloat] skips. *)
Definition isWhiteSpace (c : ascii) : bool :=
  let n := code c in
  ((9 <=? n) && (n <=? 13)) || (n =? 32) || (n =? 160).

Fixpoint trimStart (s : string) : string :=
  match s with
  | String c s' => if isWhiteSpace c then trimStart s' else s
  | EmptyString => EmptyString
  end.

Fixpoint startsWith (p s : string) : bool :=
  match p, s with
  | EmptyString, _ => true
  | String a p', String b s' => bool_decide (a = b) && startsWith p' s'
  | String _ _, EmptyString => false
  end.

End JsString.

(** ** JavaScript numbers *)

Module JsNumber.

Definition number : Type := spec_float.

Definition prec : Z := 53.
Definition emax : Z := 1024.

Definition NaN : number := S754_nan.
Definition zero : number := S754_zero false.

(** The number value of an integer literal of the program. *)
Definition of_Z (z : Z) : number := binary_normalize prec emax z 0 false.

Definition isNaN (x : number) : bool :=
  match x with
  | S754_nan => true
  | _ => false
  end.

(** [x === y], [x <= y] and [x > y] on numbers; all false on NaN. *)
Definition strictEq (x y : number) : bool := SFeqb x y.
Definition le (x y : number) : bool := SFleb x y.
Definition gt (x y : number) : bool := SFltb y x.

Definition isDigit (c : ascii) : bool :=
  let n := JsString.code c in (48 <=? n) && (n <=? 57).

Definition digitValue (c : ascii) : Z := JsString.code c - 48.

(** Reads the longest run of decimal digits in front of [s]: the value of
    [acc] followed by these digits, how many were read, and the rest. *)
Fixpoint readDigits (s : string) (acc : Z) (count : nat) : Z * nat * string :=
  match s with
  | String c s' =>
      if isDigit c then readDigits s' (10 * acc + digitValue c) (S count)
      else (acc, count, s)
  | EmptyString => (acc, count, s)
  end.

(** The value of the ExponentPart in front of [s], 0 when there is none
    (an [e] that no digit follows is not part of the literal). *)
Definition readExponent (s : string) : Z :=
  match s with
  | String c s1 =>
      if bool_decide (c = "e"%char) || bool_decide (c = "E"%char) then
        match s1 with
        | String "+" s2 =>
            let '(v, n, _) := readDigits s2 0 0%nat in
            match n with O => 0 | S _ => v end
        | String "-" s2 =>
            let '(v, n, _) := readDigits s2 0 0%nat in
            match n with O => 0 | S _ => - v end
        | _ =>
            let '(v, n, _) := readDigits s1 0 0%nat in
            match n with O => 0 | S _ => v end
        end
      else 0
  | EmptyString => 0
  end.

(** The number nearest to [m * 10^e], for [0 <= m]. *)
Definition ofDecimal (neg : bool) (m e : Z) : number :=
  match m with
  | Zpos p =>
      if 0 <=? e
      then SFdiv prec emax (S754_finite neg (p * Z.to_pos (10 ^ e)) 0)
                           (S754_finite false 1 0)
      else SFdiv prec emax (S754_finite neg p 0)
                           (S754_finite false (Z.to_pos (10 ^ (- e))) 0)
  | _ => S754_zero neg
  end.

(** StrUnsignedDecimalLiteral: [Infinity], digits with an optional
    fraction and exponent, or a fraction starting with the dot. *)
Definition parseUnsigned (neg : bool) (s : string) : number :=
  if JsString.startsWith "Infinity" s then S754_infinity neg
  else
    let '(ip, ni, r1) := readDigits s 0 0%nat in
    match r1 with
    | String "." r2 =>
        let '(m, nf, r3) := readDigits r2 ip 0%nat in
        match ni, nf with
        | O, O => NaN
        | _, _ => ofDecimal neg m (readExponent r3 - Z.of_nat nf)
        end
    | _ =>
        match ni with
        | O => NaN
        | S _ => ofDecimal neg ip (readExponent r1)
        end
    end.

(** [parseFloat]: leading white space is skipped, the longest prefix that
    is a decimal literal is converted, NaN when there is none. *)
Definition parseFloat (s : string) : number :=
  match JsString.trimStart s with
  | String "+" r => parseUnsigned false r
  | String "-" r => parseUnsigned true r
  | t => parseUnsigned false t
  end.

End JsNumber.

(** ** JavaScript [Map] with string keys *)

Module JsMap.

Section Ops.
Context {V : Type}.

(** Entries in insertion order. *)
Definition t : Type := list (string * V).

Definition empty : t := [].

Fixpoint get (k : string) (m : t) : option V :=
  match m with
  | [] => None
  | (k', v) :: m' => if bool_decide (k' = k) then Some v else get k m'
  end.

Definition has (k : string) (m : t) : bool :=
  match get k m with
  | Some _ => true
  | None => false
  end.

(** [set] on a present key replaces the value where the entry stands,
    on an absent key appends the entry. *)
Fixpoint set (k : string) (v : V) (m : t) : t :=
  match m with
  | [] => [(k, v)]
  | (k', v') :: m' =>
      if bool_decide (k' = k) then (k, v) :: m' else (k', v') :: set k v m'
  end.

Fixpoint delete (k : string) (m : t) : t :=
  match m with
  | [] => []
  | (k', v') :: m' =>
      if bool_decide (k' = k) then delete k m' else (k', v') :: delete k m'
  end.

Definition keys (m : t) : list string := m.*1.
Definition values (m : t) : list V := m.*2.

(** A map holds each key once. *)
Definition uniqueKeys (m : t) : Prop := NoDup (keys m).

(** [forEach] that copies the entries a predicate on the key keeps into
    a fresh map, as the filtering loop of the builder does. *)
Definition filterKeys (keep : string -> bool) (m : t) : t :=
  foldl (fun acc '(k, v) => if keep k then set k v acc else acc) empty m.
End Ops.

Arguments t : clear implicits.

End JsMap.

(** ** Data model *)

Record GrantItem := {
  title : string;
  status : Z;
  recipient : string;
  monthlyIncomingFlowRate : string;
  monthlyOutgoingFlowRate : string;
  flowId : option string;
  isFlow : bool;
  id : string
}.

(** Optional properties are [option]s: [None] is an absent or [undefined]
    property.  The layout fields (x0, x1, y0, y1, value), filled in later by
    the layout, are left out. *)
Record LocalSankeyNode := {
  nodeId : string;
  name : string;
  node_title : option string;
  originalData : option GrantItem;
  isRecipient : option bool;
  node_isFlow : option bool;
  username : option string;
  profileUrl : option string;
  flowUrl : option string;
  itemUrl : option string
}.

(** Before the layout runs, [source] and [target] are node ids. *)
Record LocalSankeyLink := {
  source : string;
  target : string;
  value : JsNumber.number
}.

(** The two fields of a Neynar profile that the builder reads. *)
Record NeynarUserProfile := {
  profile_username : string;
  display_name : string
}.

Record Graph := {
  nodes : list LocalSankeyNode;
  links : list LocalSankeyLink
}.

(** ** The builder *)

Definition FUNDING_SOURCE_ID : string := "___funding_source___".
Definition RECIPIENT_PREFIX : string := "recipient_".

Definition fundingSourceNode : LocalSankeyNode :=
  {| nodeId := FUNDING_SOURCE_ID; name := "Funding Source";
     node_title := None; originalData := None; isRecipient := None;
     node_isFlow := None; username := None; profileUrl := None;
     flowUrl := None; itemUrl := None |}.

Definition grantNode (item : GrantItem) : LocalSankeyNode :=
  {| nodeId := id item;
     name := if JsString.truthy (title item) then title item else id item;
     node_title := Some (title item);
     originalData := Some item;
     isRecipient := None;
     node_isFlow := Some (isFlow item);
     username := None;
     profileUrl := None;
     flowUrl := if isFlow item then Some ("https://flows.wtf/flow/" +:+ id item) else None;
     itemUrl := Some ("https://flows.wtf/item/" +:+ id item) |}.

(** First pass: one node per item, under the item's id. *)
Definition addGrantNodes (items : list GrantItem)
    (nodesMap : JsMap.t LocalSankeyNode) : JsMap.t LocalSankeyNode :=
  foldl (fun m item => JsMap.set (id item) (grantNode item) m) nodesMap items.

(** The test of both recipient loops:
    [parseFloat(item.monthlyOutgoingFlowRate) === 0 && item.recipient]. *)
Definition isTerminal (item : GrantItem) : bool :=
  JsNumber.strictEq (JsNumber.parseFloat (monthlyOutgoingFlowRate item)) JsNumber.zero
  && JsString.truthy (recipient item).

Definition recipientId (item : GrantItem) : string :=
  RECIPIENT_PREFIX +:+ recipient item.

Definition recipientNode (recipientProfiles : gmap string NeynarUserProfile)
    (item : GrantItem) : LocalSankeyNode :=
  let profile := recipientProfiles !! JsString.toLowerCase (recipient item) in
  {| nodeId := recipientId item;
     name := match profile with
             | Some p => display_name p +:+ " (" +:+ profile_username p +:+ ")"
             | None => recipient item
             end;
     node_title := Some match profile with
                        | Some p => "Recipient: " +:+ display_name p
                        | None => "Recipient: " +:+ recipient item
                        end;
     originalData := None;
     isRecipient := Some true;
     node_isFlow := None;
     username := profile_username <$> profile;
     profileUrl := (fun p => "https://warpcast.com/" +:+ profile_username p) <$> profile;
     flowUrl := None;
     itemUrl := None |}.

(** Body of the loop that creates the recipient nodes. *)
Definition addRecipientNode (recipientProfiles : gmap string NeynarUserProfile)
    (nodesMap : JsMap.t LocalSankeyNode) (item : GrantItem) : JsMap.t LocalSankeyNode :=
  if isTerminal item then
    if negb (JsMap.has (recipientId item) nodesMap)
    then JsMap.set (recipientId item) (recipientNode recipientProfiles item) nodesMap
    else nodesMap
  else nodesMap.

Definition addRecipientNodes (recipientProfiles : gmap string NeynarUserProfile)
    (items : list GrantItem) (nodesMap : JsMap.t LocalSankeyNode) : JsMap.t LocalSankeyNode :=
  foldl (addRecipientNode recipientProfiles) nodesMap items.

(** [sourceNodeId && nodesMap.has(sourceNodeId) ? sourceNodeId : FUNDING_SOURCE_ID]:
    [null] and the empty string are falsy. *)
Definition actualSourceId (nodesMap : JsMap.t LocalSankeyNode) (item : GrantItem) : string :=
  match flowId item with
  | Some sourceNodeId =>
      if JsString.truthy sourceNodeId && JsMap.has sourceNodeId nodesMap
      then sourceNodeId
      else FUNDING_SOURCE_ID
  | None => FUNDING_SOURCE_ID
  end.

(** What one round of the second pass pushes onto [links]. *)
Definition inboundLinks (nodesMap : JsMap.t LocalSankeyNode) (item : GrantItem)
    : list LocalSankeyLink :=
  let value := JsNumber.parseFloat (monthlyIncomingFlowRate item) in
  if JsNumber.le value JsNumber.zero then []
  else if JsMap.has (id item) nodesMap
       then [ {| source := actualSourceId nodesMap item; target := id item; value := value |} ]
       else [].

(** What one round of the recipient-link loop pushes onto [links]. *)
Definition recipientLinks (nodesMap : JsMap.t LocalSankeyNode) (item : GrantItem)
    : list LocalSankeyLink :=
  if isTerminal item then
    let grantValue := JsNumber.parseFloat (monthlyIncomingFlowRate item) in
    if JsNumber.gt grantValue JsNumber.zero && JsMap.has (recipientId item) nodesMap
    then [ {| source := id item; target := recipientId item; value := grantValue |} ]
    else []
  else [].

Definition pushAll (step : GrantItem -> list LocalSankeyLink) (items : list GrantItem)
    (links : list LocalSankeyLink) : list LocalSankeyLink :=
  foldl (fun ls item => ls ++ step item) links items.

(** State of the builder before the funding source check and the filter. *)
Definition nodesBeforeFilter (recipientProfiles : gmap string NeynarUserProfile)
    (items : list GrantItem) : JsMap.t LocalSankeyNode :=
  addRecipientNodes recipientProfiles items
    (addGrantNodes items (JsMap.set FUNDING_SOURCE_ID fundingSourceNode JsMap.empty)).

Definition linksBeforeFilter (recipientProfiles : gmap string NeynarUserProfile)
    (items : list GrantItem) : list LocalSankeyLink :=
  let nodesMap := nodesBeforeFilter recipientProfiles items in
  pushAll (recipientLinks nodesMap) items (pushAll (inboundLinks nodesMap) items []).

(** Removes the funding source when no link leaves it. *)
Definition dropUnusedFundingSource (links : list LocalSankeyLink)
    (nodesMap : JsMap.t LocalSankeyNode) : JsMap.t LocalSankeyNode :=
  if negb (existsb (fun link => bool_decide (source link = FUNDING_SOURCE_ID)) links)
  then JsMap.delete FUNDING_SOURCE_ID nodesMap
  else nodesMap.

Definition nodesWithLinks (links : list LocalSankeyLink) : gset string :=
  foldl (fun acc link => {[ target link ]} ∪ ({[ source link ]} ∪ acc)) ∅ links.

(** The connectivity filter: nodes with a link, then links between kept nodes. *)
Definition connectivityFilter (nodesMap : JsMap.t LocalSankeyNode)
    (links : list LocalSankeyLink) : JsMap.t LocalSankeyNode * list LocalSankeyLink :=
  let touched := nodesWithLinks links in
  let filteredNodesMap := JsMap.filterKeys (fun k => bool_decide (k ∈ touched)) nodesMap in
  let filteredLinks :=
    List.filter (fun link => JsMap.has (source link) filteredNodesMap
                             && JsMap.has (target link) filteredNodesMap) links in
  (filteredNodesMap, filteredLinks).

(** The graph handed to the layout. *)
Definition buildGraph (recipientProfiles : gmap string NeynarUserProfile)
    (items : list GrantItem) : Graph :=
  let links := linksBeforeFilter recipientProfiles items in
  let nodesMap := dropUnusedFundingSource links (nodesBeforeFilter recipientProfiles items) in
  let '(filteredNodesMap, filteredLinks) := connectivityFilter nodesMap links in
  {| nodes := JsMap.values filteredNodesMap; links := filteredLinks |}.

(** The rendering effect returns before building anything when [items] is
    empty (the guards on the DOM references and the measured size are not
    modelled). *)
Definition renderedGraph (recipientProfiles : gmap string NeynarUserProfile)
    (items : list GrantItem) : option Graph :=
  match items with
  | [] => None
  | _ :: _ => Some (buildGraph recipientProfiles items)
  end.

(** The two intermediate states of [buildGraph], named. *)
Definition nodesAfterFundingCheck (recipientProfiles : gmap string NeynarUserProfile)
    (items : list GrantItem) : JsMap.t LocalSankeyNode :=
  dropUnusedFundingSource (linksBeforeFilter recipientProfiles items)
    (nodesBeforeFilter recipientProfiles items).

Definition filteredState (recipientProfiles : gmap string NeynarUserProfile)
    (items : list GrantItem) : JsMap.t LocalSankeyNode * list LocalSankeyLink :=
  connectivityFilter (nodesAfterFundingCheck recipientProfiles items)
    (linksBeforeFilter recipientProfiles items).

Definition filteredNodesMap (recipientProfiles : gmap string NeynarUserProfile)
    (items : list GrantItem) : JsMap.t LocalSankeyNode :=
  (filteredState recipientProfiles items).1.

(** ** Notions used by the statements *)

(** Where a node of the map comes from. *)
Inductive nodeOrigin (recipientProfiles : gmap string NeynarUserProfile)
    (items : list GrantItem) : string -> LocalSankeyNode -> Prop :=
  | origin_funding :
      nodeOrigin recipientProfiles items FUNDING_SOURCE_ID fundingSourceNode
  | origin_grant item :
      item ∈ items →
      nodeOrigin recipientProfiles items (id item) (grantNode item)
  | origin_recipient item :
      item ∈ items → isTerminal item = true →
      nodeOrigin recipientProfiles items (recipientId item)
        (recipientNode recipientProfiles item).

(** Every end of every link is a key of the map. *)
Definition closedLinks (nodesMap : JsMap.t LocalSankeyNode)
    (links : list LocalSankeyLink) : bool :=
  forallb (fun link => JsMap.has (source link) nodesMap
                       && JsMap.has (target link) nodesMap) links.

(** A link touches a key. *)
Definition incident (k : string) (link : LocalSankeyLink) : Prop :=
  source link = k ∨ target link = k.

(** No two recipient nodes with ids equal up to letter case. *)
Definition recipientsDistinctUpToCase (g : Graph) : Prop :=
  ∀ n1 n2, n1 ∈ nodes g → n2 ∈ nodes g →
    isRecipient n1 = Some true → isRecipient n2 = Some true →
    JsString.toLowerCase (nodeId n1) = JsString.toLowerCase (nodeId n2) →
    n1 = n2.

(** ** Sample inputs *)

Module Samples.

(** The grant of the worked example. *)
Definition g1 : GrantItem :=
  {| title := "Grant 1"; status := 1; recipient := "0xabc";
     monthlyIncomingFlowRate := "100"; monthlyOutgoingFlowRate := "0";
     flowId := None; isFlow := false; id := "g1" |}.

(** The same grant with no incoming flow. *)
Definition g1_idle : GrantItem :=
  {| title := "Grant 1"; status := 1; recipient := "0xabc";
     monthlyIncomingFlowRate := "0"; monthlyOutgoingFlowRate := "0";
     flowId := None; isFlow := false; id := "g1" |}.

(** Two terminal grants paying the same address in two spellings. *)
Definition paysUpper : GrantItem :=
  {| title := "A"; status := 1; recipient := "0xAB";
     monthlyIncomingFlowRate := "7"; monthlyOutgoingFlowRate := "0";
     flowId := None; isFlow := false; id := "a" |}.

Definition paysLower : GrantItem :=
  {| title := "B"; status := 1; recipient := "0xab";
     monthlyIncomingFlowRate := "7"; monthlyOutgoingFlowRate := "0";
     flowId := None; isFlow := false; id := "b" |}.

(** A grant whose id is the reserved one, funded from nowhere. *)
Definition impostor : GrantItem :=
  {| title := "Treasury"; status := 1; recipient := "";
     monthlyIncomingFlowRate := "5"; monthlyOutgoingFlowRate := "1";
     flowId := None; isFlow := true; id := FUNDING_SOURCE_ID |}.

(** A grant whose id is the reserved one, funded by g1, and an idle g1. *)
Definition impostorFed : GrantItem :=
  {| title := "Treasury"; status := 1; recipient := "";
     monthlyIncomingFlowRate := "5"; monthlyOutgoingFlowRate := "1";
     flowId := Some "g1"; isFlow := true; id := FUNDING_SOURCE_ID |}.

Definition upstreamIdle : GrantItem :=
  {| title := "Grant 1"; status := 1; recipient := "";
     monthlyIncomingFlowRate := "0"; monthlyOutgoingFlowRate := "5";
     flowId := None; isFlow := true; id := "g1" |}.

(** A grant funded by g1. *)
Definition fundedByG1 : GrantItem :=
  {| title := "Grant 2"; status := 1; recipient := "0xdef";
     monthlyIncomingFlowRate := "50"; monthlyOutgoingFlowRate := "0";
     flowId := Some "g1"; isFlow := false; id := "g2" |}.

(** A grant whose id is the empty string, and a grant naming it upstream. *)
Definition namedEmpty : GrantItem :=
  {| title := "Root"; status := 1; recipient := "";
     monthlyIncomingFlowRate := "0"; monthlyOutgoingFlowRate := "5";
     flowId := None; isFlow := true; id := "" |}.

Definition fundedByEmpty : GrantItem :=
  {| title := "Grant 2"; status := 1; recipient := "";
     monthlyIncomingFlowRate := "5"; monthlyOutgoingFlowRate := "1";
     flowId := Some ""; isFlow := false; id := "g2" |}.


Definition alice : NeynarUserProfile :=
  {| profile_username := "alice"; display_name := "Alice" |}.


(** A grant that repeats the id of g1 under another title. *)
Definition g1_again : GrantItem :=
  {| title := "Grant 1 bis"; status := 1; recipient := "0xabc";
     monthlyIncomingFlowRate := "20"; monthlyOutgoingFlowRate := "0";
     flowId := None; isFlow := false; id := "g1" |}.

(** A terminal grant whose own id is the id its recipient node would get. *)
Definition selfPay : GrantItem :=
  {| title := "Self"; status := 1; recipient := "0xabc";
     monthlyIncomingFlowRate := "100"; monthlyOutgoingFlowRate := "0";
     flowId := None; isFlow := false; id := "recipient_0xabc" |}.

(** g1 with an outgoing rate, then an incoming rate, that is no number. *)
Definition nanOutgoing : GrantItem :=
  {| title := "Grant 1"; status := 1; recipient := "0xabc";
     monthlyIncomingFlowRate := "100"; monthlyOutgoingFlowRate := "abc";
     flowId := None; isFlow := false; id := "g1" |}.

Definition nanIncoming : GrantItem :=
  {| title := "Grant 1"; status := 1; recipient := "0xabc";
     monthlyIncomingFlowRate := "abc"; monthlyOutgoingFlowRate := "0";
     flowId := None; isFlow := false; id := "g1" |}.

End Samples.

(** ** Height of the layout *)

(** Arithmetic on numbers and [Math.max], [Math.min] of two numbers: NaN when
    an argument is NaN, and positive zero counts as larger than negative
    zero. *)
Module JsMath.

Definition add (x y : JsNumber.number) : JsNumber.number :=
  SFadd JsNumber.prec JsNumber.emax x y.

Definition mul (x y : JsNumber.number) : JsNumber.number :=
  SFmul JsNumber.prec JsNumber.emax x y.

Definition div (x y : JsNumber.number) : JsNumber.number :=
  SFdiv JsNumber.prec JsNumber.emax x y.

Definition max (x y : JsNumber.number) : JsNumber.number :=
  if JsNumber.isNaN x || JsNumber.isNaN y then JsNumber.NaN
  else match SFcompare x y with
       | Some Lt => y
       | Some Gt => x
       | _ => match x, y with
              | S754_zero true, S754_zero false => y
              | _, _ => x
              end
       end.

Definition min (x y : JsNumber.number) : JsNumber.number :=
  if JsNumber.isNaN x || JsNumber.isNaN y then JsNumber.NaN
  else match SFcompare x y with
       | Some Lt => x
       | Some Gt => y
       | _ => match x, y with
              | S754_zero false, S754_zero true => y
              | _, _ => x
              end
       end.

End JsMath.

(** [filteredLinks.reduce((sum, link) => sum + link.value, 0)]. *)
Definition totalValue (filteredLinks : list LocalSankeyLink) : JsNumber.number :=
  foldl (fun sum link => JsMath.add sum (value link)) JsNumber.zero filteredLinks.

(** The vertical extent handed to the layout. *)
Definition valueScaledHeight (innerHeight : JsNumber.number)
    (filteredLinks : list LocalSankeyLink) : JsNumber.number :=
  JsMath.max innerHeight
    (JsMath.min (JsMath.mul innerHeight (JsNumber.of_Z 6))
       (JsMath.mul (JsMath.div (totalValue filteredLinks) (JsNumber.of_Z 10000))
          innerHeight)).

(** ** Click targets of a node *)

(** Truthiness of an optional flag and of an optional string. *)
Definition truthyFlag (b : option bool) : bool :=
  match b with
  | Some true => true
  | _ => false
  end.

Definition truthyText (s : option string) : bool :=
  match s with
  | Some t => JsString.truthy t
  | None => false
  end.

(** The URL that the click handler of the link icon, and the one of the
    label, hand to [window.open]; [None] when the handler opens nothing. *)
Definition clickUrl (d : LocalSankeyNode) : option string :=
  if truthyFlag (isRecipient d) && truthyText (profileUrl d) then profileUrl d
  else if truthyFlag (node_isFlow d) && truthyText (flowUrl d) then flowUrl d
  else if negb (truthyFlag (isRecipient d)) && truthyText (itemUrl d) then itemUrl d
  else None.

(** The URL opened by the transparent rectangle that [node.each] lays over a
    node; [None] when no rectangle is appended. *)
Definition overlayUrl (d : LocalSankeyNode) : option string :=
  if truthyFlag (isRecipient d) && truthyText (profileUrl d) then profileUrl d
  else if truthyFlag (node_isFlow d) && truthyText (flowUrl d) then flowUrl d
  else if truthyText (itemUrl d) && negb (truthyFlag (isRecipient d)) then itemUrl d
  else None.

(** The cursor attribute of the label. *)
Definition labelCursor (d : LocalSankeyNode) : string :=
  if (truthyFlag (isRecipient d) && truthyText (profileUrl d))
     || (truthyFlag (node_isFlow d) && truthyText (flowUrl d))
     || (negb (truthyFlag (isRecipient d)) && truthyText (itemUrl d))
  then "pointer" else "default".

(** ** Recipient profile fetcher *)

(** A JavaScript [Set] of strings: the elements in insertion order. *)
Module JsSet.

Definition t : Type := list string.

Definition has (x : string) (s : t) : bool := bool_decide (x ∈ s).

Definition add (x : string) (s : t) : t := if has x s then s else s ++ [x].

Definition size (s : t) : nat := length s.

End JsSet.

(** [Array.prototype.join]. *)
Fixpoint join (sep : string) (l : list string) : string :=
  match l with
  | [] => ""
  | x :: l' =>
      match l' with
      | [] => x
      | _ :: _ => x +:+ sep +:+ join sep l'
      end
  end.

(** The addresses to look up: lower-cased recipients of the grants with a
    recipient and an outgoing rate of zero. *)
Definition uniqueRecipients (items : list GrantItem) : JsSet.t :=
  foldl (fun acc item =>
           if JsString.truthy (recipient item)
              && JsNumber.strictEq (JsNumber.parseFloat (monthlyOutgoingFlowRate item))
                   JsNumber.zero
           then JsSet.add (JsString.toLowerCase (recipient item)) acc
           else acc)
        [] items.

(** The URL requested, [None] when the effect returns without a request. *)
Definition profilesRequestUrl (items : list GrantItem) : option string :=
  match JsSet.size (uniqueRecipients items) with
  | O => None
  | S _ =>
      Some ("https://api.neynar.com/v2/farcaster/user/bulk-by-address?addresses="
            +:+ join "%2C" (uniqueRecipients items) +:+ "&address_types=")
  end.

(** The response body as [Object.entries] lists it: address and users. *)
Definition NeynarResponse : Type := list (string * list NeynarUserProfile).

(** Keeps the first user of every address that has one, under the
    lower-cased address. *)
Definition processResponse (data : NeynarResponse) : gmap string NeynarUserProfile :=
  foldl (fun profiles '(address, users) =>
           match users with
           | user :: _ => <[ JsString.toLowerCase address := user ]> profiles
           | [] => profiles
           end)
        ∅ data.

(** The entry that decides the profile under [k]: the last one with users
    whose lower-cased address is [k]. *)
Definition decides (data : NeynarResponse) (k : string) (user : NeynarUserProfile) : Prop :=
  ∃ before address others after,
    data = before ++ (address, user :: others) :: after
    ∧ JsString.toLowerCase address = k
    ∧ ∀ address' users', (address', users') ∈ after →
        JsString.toLowerCase address' = k → users' = [].

(** What comes back: a body, or a failure of any kind (rejected request,
    status that is not ok, body that cannot be read), which the effect
    catches and logs. *)
Inductive ProfilesReply :=
  | ProfilesFailed
  | ProfilesBody (data : NeynarResponse).

(** The profile mapping held by the component after the effect has run. *)
Definition fetchRecipientProfiles (items : list GrantItem) (reply : ProfilesReply)
    (recipientProfiles : gmap string NeynarUserProfile) : gmap string NeynarUserProfile :=
  match JsSet.size (uniqueRecipients items) with
  | O => recipientProfiles
  | S _ =>
      match reply with
      | ProfilesBody data => processResponse data
      | ProfilesFailed => recipientProfiles
      end
  end.

(** ** Top-level component (App.tsx) *)

Module App.

(** A thrown value: an [Error] with its message, or anything else. *)
Inductive Thrown :=
  | ThrownError (message : string)
  | ThrownOther.

(** What the grant request comes to: [fetch] rejects; the response is not
    ok, with its status; reading the body or its [data.grantss.items] throws;
    or the items arrive. *)
Inductive GrantsReply :=
  | FetchRejected (e : Thrown)
  | NotOk (status : Z)
  | BodyRejected (e : Thrown)
  | Body (items : list GrantItem).

Record State := {
  items : list GrantItem;
  loading : bool;
  error : option string
}.

Definition initialState : State :=
  {| items := []; loading := true; error := None |}.

Definition setItems (its : list GrantItem) (s : State) : State :=
  {| items := its; loading := loading s; error := error s |}.

Definition setLoading (b : bool) (s : State) : State :=
  {| items := items s; loading := b; error := error s |}.

Definition setError (e : option string) (s : State) : State :=
  {| items := items s; loading := loading s; error := e |}.

(** [err instanceof Error ? err.message : "An unknown error occurred"]. *)
Definition caughtMessage (e : Thrown) : string :=
  match e with
  | ThrownError message => message
  | ThrownOther => "An unknown error occurred"
  end.

(** The value thrown inside the [try] block, if any, else the items. *)
Definition tryBlock (reply : GrantsReply) : Thrown + list GrantItem :=
  match reply with
  | FetchRejected e => inl e
  | NotOk status =>
      inl (ThrownError ("API request failed with status "
                        +:+ NilZero.string_of_int (Z.to_int status)))
  | BodyRejected e => inl e
  | Body its => inr its
  end.

(** [fetchData]: try, catch, finally. *)
Definition fetchData (reply : GrantsReply) (s : State) : State :=
  setLoading false
    match tryBlock reply with
    | inr its => setItems its s
    | inl e => setError (Some (caughtMessage e)) s
    end.

(** The blocks of the page, in document order. *)
Inductive Block :=
  | LoadingBlock
  | ErrorBlock (message : string)
  | DiagramBlock (its : list GrantItem)
  | EmptyBlock.

Definition render (s : State) : list Block :=
  (if loading s then [LoadingBlock] else [])
  ++ (match error s with
      | Some message => if JsString.truthy message then [ErrorBlock message] else []
      | None => []
      end)
  ++ (if negb (loading s) && negb (truthyText (error s)) && (0 <? length (items s))%nat
      then [DiagramBlock (items s)] else [])
  ++ (if negb (loading s) && negb (truthyText (error s)) && (length (items s) =? 0)%nat
      then [EmptyBlock] else []).

End App.

(** * Facts about the map operations *)

Module JsMapFacts.
Import JsMap.

Section Facts.
Context {V : Type}.
Implicit Types (m : JsMap.t V) (k : string) (v : V).

Lemma get_set k k' v m :
  get k' (set k v m) = if bool_decide (k = k') then Some v else get k' m.
Proof.
  induction m as [|[k0 v0] m IH]; csimpl.
  - done.
  - destruct (bool_decide_reflect (k0 = k)) as [->|Hne]; csimpl.
    + destruct (bool_decide_reflect (k = k')); done.
    + rewrite IH.
      destruct (bool_decide_reflect (k0 = k')) as [->|]; [|done].
      by rewrite bool_decide_eq_false_2.
Qed.

Lemma has_set k k' v m :
  has k' (set k v m) = bool_decide (k = k') || has k' m.
Proof. unfold has. rewrite get_set. by case_bool_decide. Qed.

Lemma get_delete k k' m :
  get k' (delete k m) = if bool_decide (k = k') then None else get k' m.
Proof.
  induction m as [|[k0 v0] m IH]; csimpl.
  - by case_bool_decide.
  - destruct (bool_decide_reflect (k0 = k)) as [->|Hne]; csimpl.
    + rewrite IH. by case_bool_decide.
    + rewrite IH.
      destruct (bool_decide_reflect (k0 = k')) as [->|]; [|done].
      by rewrite bool_decide_eq_false_2.
Qed.

Lemma has_delete k k' m :
  has k' (delete k m) = negb (bool_decide (k = k')) && has k' m.
Proof. unfold has. rewrite get_delete. by case_bool_decide. Qed.

Lemma get_Some_elem k v m : get k m = Some v → (k, v) ∈ m.
Proof.
  induction m as [|[k0 v0] m IH]; csimpl; [done|].
  case_bool_decide; intros Hg.
  - simplify_eq. apply list_elem_of_here.
  - apply list_elem_of_further. auto.
Qed.

Lemma get_None_keys k m : get k m = None ↔ k ∉ keys m.
Proof.
  unfold keys. induction m as [|[k0 v0] m IH]; csimpl.
  - split; [intros _; apply not_elem_of_nil | done].
  - rewrite not_elem_of_cons. case_bool_decide; subst.
    + split; [done | intros [? _]; done].
    + rewrite IH. split; [by intros ?; split | by intros [_ ?]].
Qed.

Lemma has_keys k m : has k m = true ↔ k ∈ keys m.
Proof.
  unfold has. destruct (get k m) eqn:E.
  - split; [intros _ | done].
    destruct (decide (k ∈ keys m)) as [|Hn]; [done|].
    apply get_None_keys in Hn. congruence.
  - split; [done|]. intros Hin. apply get_None_keys in E. done.
Qed.

Lemma has_false_keys k m : has k m = false ↔ k ∉ keys m.
Proof. rewrite <- has_keys. by destruct (has k m). Qed.

Lemma elem_get k v m : uniqueKeys m → (k, v) ∈ m → get k m = Some v.
Proof.
  unfold uniqueKeys, keys. induction m as [|[k0 v0] m IH]; csimpl.
  - intros _ H. by apply elem_of_nil in H.
  - rewrite NoDup_cons. intros [Hk0 Hnd] [Heq|Hin]%elem_of_cons.
    + simplify_eq. by rewrite bool_decide_eq_true_2.
    + case_bool_decide; [|auto]. subst.
      exfalso. apply Hk0. apply list_elem_of_fmap. by exists (k, v).
Qed.

Lemma set_fresh k v m : has k m = false → set k v m = m ++ [(k, v)].
Proof.
  induction m as [|[k0 v0] m IH]; csimpl; [done|].
  unfold has. csimpl. case_bool_decide; [done|].
  intros Hg. f_equal. by apply IH.
Qed.

Lemma keys_set k v m :
  keys (set k v m) = if has k m then keys m else keys m ++ [k].
Proof.
  unfold keys, has. induction m as [|[k0 v0] m IH]; csimpl; [done|].
  case_bool_decide; csimpl; [by subst|].
  rewrite IH. by destruct (get k m).
Qed.

Lemma uniqueKeys_empty : uniqueKeys (@empty V).
Proof. apply NoDup_nil_2. Qed.

Lemma uniqueKeys_set k v m : uniqueKeys m → uniqueKeys (set k v m).
Proof.
  unfold uniqueKeys. rewrite keys_set. destruct (has k m) eqn:E; [done|].
  intros Hnd. apply NoDup_app. split_and!; [done| |apply NoDup_singleton].
  intros x Hx ->%list_elem_of_singleton.
  apply has_keys in Hx. congruence.
Qed.

Lemma delete_filter k m :
  delete k m = List.filter (fun kv => negb (bool_decide (kv.1 = k))) m.
Proof.
  induction m as [|[k0 v0] m IH]; csimpl; [done|].
  case_bool_decide; csimpl; by rewrite IH.
Qed.

Lemma keys_filter (keep : string -> bool) m :
  keys (List.filter (fun kv => keep kv.1) m) = List.filter keep (keys m).
Proof.
  unfold keys. induction m as [|[k0 v0] m IH]; csimpl; [done|].
  destruct (keep k0); csimpl; by rewrite IH.
Qed.

Lemma NoDup_List_filter {A} (f : A -> bool) (l : list A) :
  NoDup l → NoDup (List.filter f l).
Proof.
  induction l as [|a l IH]; csimpl; [done|].
  rewrite NoDup_cons. intros [Ha Hl].
  destruct (f a); [|auto].
  apply NoDup_cons. split; [|auto].
  rewrite list_elem_of_In, filter_In, <- list_elem_of_In. tauto.
Qed.

Lemma uniqueKeys_filter (keep : string -> bool) m :
  uniqueKeys m → uniqueKeys (List.filter (fun kv => keep kv.1) m).
Proof. unfold uniqueKeys. rewrite keys_filter. apply NoDup_List_filter. Qed.

Lemma uniqueKeys_delete k m : uniqueKeys m → uniqueKeys (delete k m).
Proof.
  intros Hm. rewrite delete_filter.
  exact (uniqueKeys_filter (fun k' : string => negb (bool_decide (k' = k))) m Hm).
Qed.

Lemma get_filter (keep : string -> bool) k m :
  get k (List.filter (fun kv => keep kv.1) m) = if keep k then get k m else None.
Proof.
  induction m as [|[k0 v0] m IH]; csimpl.
  - by destruct (keep k).
  - destruct (keep k0) eqn:E0; csimpl; rewrite IH.
    + case_bool_decide; [|done]. subst. by rewrite E0.
    + case_bool_decide; [|done]. subst. by rewrite E0.
Qed.

(** On a well-formed map the copying loop is a plain filter. *)
Lemma filterKeys_acc (keep : string -> bool) m acc :
  uniqueKeys m → (∀ k, k ∈ keys m → k ∉ keys acc) →
  foldl (fun a '(k, v) => if keep k then set k v a else a) acc m
  = acc ++ List.filter (fun kv => keep kv.1) m.
Proof.
  unfold uniqueKeys, keys. revert acc.
  induction m as [|[k0 v0] m IH]; intros acc Hnd Hdisj; csimpl.
  - by rewrite app_nil_r.
  - apply NoDup_cons in Hnd as [Hk0 Hnd].
    destruct (keep k0) eqn:E0.
    + rewrite set_fresh.
      2:{ apply has_false_keys. apply Hdisj. csimpl. apply list_elem_of_here. }
      rewrite IH; [by rewrite <- app_assoc | done |].
      intros k Hk. rewrite fmap_app, elem_of_app. csimpl.
      rewrite list_elem_of_singleton. intros [Hacc | ->]; [|done].
      eapply Hdisj; [|done]. csimpl. by apply list_elem_of_further.
    + apply IH; [done|]. intros k Hk. apply Hdisj. csimpl.
      by apply list_elem_of_further.
Qed.

Lemma filterKeys_filter (keep : string -> bool) m :
  uniqueKeys m → filterKeys keep m = List.filter (fun kv => keep kv.1) m.
Proof.
  intros Hwf. unfold filterKeys. rewrite filterKeys_acc; [done..|].
  intros k _. apply not_elem_of_nil.
Qed.

Lemma values_elem v m : v ∈ values m ↔ ∃ k, (k, v) ∈ m.
Proof.
  unfold values. rewrite list_elem_of_fmap. split.
  - intros [[k v'] [-> H]]. by exists k.
  - intros [k H]. by exists (k, v).
Qed.
End Facts.

End JsMapFacts.

(** * Facts about the passes of the builder *)

Section BuilderFacts.
Import JsMap JsMapFacts.

Variable recipientProfiles : gmap string NeynarUserProfile.

Implicit Types (item : GrantItem) (items : list GrantItem).
Implicit Types (m : JsMap.t LocalSankeyNode) (k : string) (v : LocalSankeyNode).

(** ** Pushing links *)

Lemma pushAll_flat_map (step : GrantItem -> list LocalSankeyLink) items ls :
  pushAll step items ls = ls ++ flat_map step items.
Proof.
  unfold pushAll. revert ls.
  induction items as [|x items IH]; intros ls; simpl.
  - by rewrite app_nil_r.
  - rewrite IH. by rewrite <- app_assoc.
Qed.

Lemma linksBeforeFilter_eq items :
  linksBeforeFilter recipientProfiles items
  = flat_map (inboundLinks (nodesBeforeFilter recipientProfiles items)) items
    ++ flat_map (recipientLinks (nodesBeforeFilter recipientProfiles items)) items.
Proof. unfold linksBeforeFilter. by rewrite !pushAll_flat_map. Qed.

(** ** First pass *)

Lemma addGrantNodes_snoc items item m :
  addGrantNodes (items ++ [item]) m
  = set (id item) (grantNode item) (addGrantNodes items m).
Proof. unfold addGrantNodes. by rewrite foldl_app. Qed.

Lemma addGrantNodes_uniqueKeys items m :
  uniqueKeys m → uniqueKeys (addGrantNodes items m).
Proof.
  induction items as [|x items IH] using rev_ind; [done|].
  intros Hm. rewrite addGrantNodes_snoc. apply uniqueKeys_set. auto.
Qed.

Lemma addGrantNodes_has items m k :
  has k (addGrantNodes items m) = true ↔ has k m = true ∨ ∃ item, item ∈ items ∧ id item = k.
Proof.
  induction items as [|x items IH] using rev_ind.
  - split; [by left|]. intros [?|(? & []%elem_of_nil & _)]. done.
  - rewrite addGrantNodes_snoc, has_set, orb_true_iff, bool_decide_eq_true, IH.
    split.
    + intros [Hx | [? | (y & Hy & ?)]]; [| by left |].
      * right. exists x. split; [|done]. apply elem_of_app. right. apply list_elem_of_here.
      * right. exists y. split; [|done]. apply elem_of_app. by left.
    + intros [? | (y & [Hy | ->%list_elem_of_singleton]%elem_of_app & ?)].
      * right. by left.
      * right. right. by exists y.
      * by left.
Qed.

(** A key that no item carries keeps its node. *)
Lemma addGrantNodes_get_other items m k :
  (∀ item, item ∈ items → id item ≠ k) →
  get k (addGrantNodes items m) = get k m.
Proof.
  induction items as [|x items IH] using rev_ind; [done|].
  intros Hk. rewrite addGrantNodes_snoc, get_set.
  rewrite bool_decide_eq_false_2.
  - apply IH. intros y Hy. apply Hk. apply elem_of_app. by left.
  - apply Hk. apply elem_of_app. right. apply list_elem_of_here.
Qed.


Lemma addGrantNodes_get items m k v :
  get k (addGrantNodes items m) = Some v →
  get k m = Some v ∨ ∃ item, item ∈ items ∧ k = id item ∧ v = grantNode item.
Proof.
  induction items as [|x items IH] using rev_ind; [by left|].
  rewrite addGrantNodes_snoc, get_set. case_bool_decide as Hk.
  - intros [= <-]. right. exists x. split; [|done].
    apply elem_of_app. right. apply list_elem_of_here.
  - intros [?|(y & Hy & ?)]%IH; [by left|].
    right. exists y. split; [|done]. apply elem_of_app. by left.
Qed.

(** ** Recipient nodes *)

Lemma addRecipientNodes_snoc items item m :
  addRecipientNodes recipientProfiles (items ++ [item]) m
  = addRecipientNode recipientProfiles (addRecipientNodes recipientProfiles items m) item.
Proof. unfold addRecipientNodes. by rewrite foldl_app. Qed.

Lemma addRecipientNodes_app items1 items2 m :
  addRecipientNodes recipientProfiles (items1 ++ items2) m
  = addRecipientNodes recipientProfiles items2
      (addRecipientNodes recipientProfiles items1 m).
Proof. unfold addRecipientNodes. by rewrite foldl_app. Qed.

Lemma addRecipientNode_uniqueKeys item m :
  uniqueKeys m → uniqueKeys (addRecipientNode recipientProfiles m item).
Proof.
  intros Hm. unfold addRecipientNode.
  destruct (isTerminal item); [|done].
  destruct (has (recipientId item) m); [done|]. by apply uniqueKeys_set.
Qed.

Lemma addRecipientNodes_uniqueKeys items m :
  uniqueKeys m → uniqueKeys (addRecipientNodes recipientProfiles items m).
Proof.
  induction items as [|x items IH] using rev_ind; [done|].
  intros Hm. rewrite addRecipientNodes_snoc.
  apply addRecipientNode_uniqueKeys. auto.
Qed.

(** The loop only adds under absent keys: a present node is never replaced. *)
Lemma addRecipientNode_get_kept item m k v :
  get k m = Some v → get k (addRecipientNode recipientProfiles m item) = Some v.
Proof.
  intros Hk. unfold addRecipientNode.
  destruct (isTerminal item); [|done].
  destruct (has (recipientId item) m) eqn:Hhas; [done|]. simpl.
  rewrite get_set. case_bool_decide as Heq; [|done].
  subst k. unfold has in Hhas. by rewrite Hk in Hhas.
Qed.

Lemma addRecipientNodes_get_kept items m k v :
  get k m = Some v → get k (addRecipientNodes recipientProfiles items m) = Some v.
Proof.
  induction items as [|x items IH] using rev_ind; [done|].
  intros Hk. rewrite addRecipientNodes_snoc.
  apply addRecipientNode_get_kept. auto.
Qed.

Lemma addRecipientNodes_has_kept items m k :
  has k m = true → has k (addRecipientNodes recipientProfiles items m) = true.
Proof.
  unfold has. destruct (get k m) eqn:E; [|done]. intros _.
  by rewrite (addRecipientNodes_get_kept _ _ _ _ E).
Qed.

Lemma addRecipientNode_has_terminal item m :
  isTerminal item = true →
  has (recipientId item) (addRecipientNode recipientProfiles m item) = true.
Proof.
  intros Ht. unfold addRecipientNode. rewrite Ht.
  destruct (has (recipientId item) m) eqn:Hhas; [done|]. simpl.
  rewrite has_set. by rewrite bool_decide_eq_true_2.
Qed.

Lemma addRecipientNodes_has_terminal items item m :
  item ∈ items → isTerminal item = true →
  has (recipientId item) (addRecipientNodes recipientProfiles items m) = true.
Proof.
  intros (pre & post & ->)%list_elem_of_split Ht.
  replace (pre ++ item :: post) with ((pre ++ [item]) ++ post)
    by (by rewrite <- app_assoc).
  rewrite addRecipientNodes_app. apply addRecipientNodes_has_kept.
  rewrite addRecipientNodes_snoc. by apply addRecipientNode_has_terminal.
Qed.

Lemma addRecipientNodes_get items m k v :
  get k (addRecipientNodes recipientProfiles items m) = Some v →
  get k m = Some v
  ∨ ∃ item, item ∈ items ∧ isTerminal item = true
            ∧ k = recipientId item ∧ v = recipientNode recipientProfiles item.
Proof.
  induction items as [|x items IH] using rev_ind; [by left|].
  rewrite addRecipientNodes_snoc.
  assert (∀ y, y ∈ items → y ∈ items ++ [x]) as Hin
    by (intros y Hy; apply elem_of_app; by left).
  assert (x ∈ items ++ [x]) as Hx
    by (apply elem_of_app; right; apply list_elem_of_here).
  unfold addRecipientNode.
  destruct (isTerminal x) eqn:Ht.
  2:{ intros [?|(y & ? & ?)]%IH; [by left|]. right. exists y. auto. }
  destruct (has (recipientId x) _) eqn:Hhas; simpl.
  { intros [?|(y & ? & ?)]%IH; [by left|]. right. exists y. auto. }
  rewrite get_set. case_bool_decide as Hk.
  - intros [= <-]. right. by exists x.
  - intros [?|(y & ? & ?)]%IH; [by left|]. right. exists y. auto.
Qed.
End BuilderFacts.

(** * Facts about the state before and after the filter *)

Section StateFacts.
Import JsMap JsMapFacts.

Variable recipientProfiles : gmap string NeynarUserProfile.

Implicit Types (item : GrantItem) (items : list GrantItem).
Implicit Types (m : JsMap.t LocalSankeyNode) (k : string) (v : LocalSankeyNode).

Lemma nodesBeforeFilter_uniqueKeys items :
  uniqueKeys (nodesBeforeFilter recipientProfiles items).
Proof.
  unfold nodesBeforeFilter.
  apply addRecipientNodes_uniqueKeys, addGrantNodes_uniqueKeys, uniqueKeys_set, uniqueKeys_empty.
Qed.

Lemma nodesBeforeFilter_has_funding items :
  has FUNDING_SOURCE_ID (nodesBeforeFilter recipientProfiles items) = true.
Proof.
  unfold nodesBeforeFilter.
  apply addRecipientNodes_has_kept, addGrantNodes_has. by left.
Qed.

Lemma nodesBeforeFilter_has_grant items item :
  item ∈ items → has (id item) (nodesBeforeFilter recipientProfiles items) = true.
Proof.
  intros Hin. unfold nodesBeforeFilter.
  apply addRecipientNodes_has_kept, addGrantNodes_has. right. by exists item.
Qed.

Lemma nodesBeforeFilter_has_recipient items item :
  item ∈ items → isTerminal item = true →
  has (recipientId item) (nodesBeforeFilter recipientProfiles items) = true.
Proof. intros. unfold nodesBeforeFilter. by apply addRecipientNodes_has_terminal. Qed.

Lemma nodesBeforeFilter_origin items k v :
  get k (nodesBeforeFilter recipientProfiles items) = Some v →
  nodeOrigin recipientProfiles items k v.
Proof.
  unfold nodesBeforeFilter.
  intros [[Hk|(y & ? & -> & ->)]%addGrantNodes_get | (y & ? & ? & -> & ->)]%addRecipientNodes_get.
  - simpl in Hk. case_bool_decide; [|done]. simplify_eq. constructor.
  - by constructor.
  - by constructor.
Qed.

Lemma nodeOrigin_nodeId items k v :
  nodeOrigin recipientProfiles items k v → nodeId v = k.
Proof. by intros []. Qed.

(** ** Links before the filter *)

Lemma actualSourceId_has items item :
  has (actualSourceId (nodesBeforeFilter recipientProfiles items) item)
      (nodesBeforeFilter recipientProfiles items) = true.
Proof.
  unfold actualSourceId. destruct (flowId item) as [f|].
  - destruct (JsString.truthy f); simpl; [|apply nodesBeforeFilter_has_funding].
    destruct (has f _) eqn:E; [done | apply nodesBeforeFilter_has_funding].
  - apply nodesBeforeFilter_has_funding.
Qed.

Lemma inboundLinks_elem nodesMap item link :
  link ∈ inboundLinks nodesMap item →
  link = {| source := actualSourceId nodesMap item; target := id item;
            value := JsNumber.parseFloat (monthlyIncomingFlowRate item) |}
  ∧ has (id item) nodesMap = true.
Proof.
  unfold inboundLinks.
  destruct (JsNumber.le _ _); [by intros ?%elem_of_nil|].
  destruct (has (id item) nodesMap); [|by intros ?%elem_of_nil].
  by intros ->%list_elem_of_singleton.
Qed.

Lemma recipientLinks_elem nodesMap item link :
  link ∈ recipientLinks nodesMap item →
  link = {| source := id item; target := recipientId item;
            value := JsNumber.parseFloat (monthlyIncomingFlowRate item) |}
  ∧ has (recipientId item) nodesMap = true.
Proof.
  unfold recipientLinks.
  destruct (isTerminal item); [|by intros ?%elem_of_nil].
  destruct (JsNumber.gt _ _); simpl; [|by intros ?%elem_of_nil].
  destruct (has (recipientId item) nodesMap); [|by intros ?%elem_of_nil].
  by intros ->%list_elem_of_singleton.
Qed.

Lemma elem_of_flat_map {A B} (f : A -> list B) (l : list A) (b : B) :
  b ∈ flat_map f l ↔ ∃ a, a ∈ l ∧ b ∈ f a.
Proof.
  rewrite list_elem_of_In, in_flat_map.
  split; intros (a & Ha & Hb); exists a; by rewrite ?list_elem_of_In in *.
Qed.

Lemma closedLinks_spec m (ls : list LocalSankeyLink) :
  closedLinks m ls = true
  ↔ ∀ link, link ∈ ls → has (source link) m = true ∧ has (target link) m = true.
Proof.
  unfold closedLinks. rewrite forallb_forall.
  setoid_rewrite andb_true_iff. by setoid_rewrite list_elem_of_In.
Qed.

Lemma linksBeforeFilter_closed items link :
  link ∈ linksBeforeFilter recipientProfiles items →
  has (source link) (nodesBeforeFilter recipientProfiles items) = true
  ∧ has (target link) (nodesBeforeFilter recipientProfiles items) = true.
Proof.
  rewrite linksBeforeFilter_eq, elem_of_app, !elem_of_flat_map.
  intros [(x & Hx & Hl) | (x & Hx & Hl)].
  - apply inboundLinks_elem in Hl as [-> Hid]. simpl. split; [|done].
    apply actualSourceId_has.
  - apply recipientLinks_elem in Hl as [-> Hid]. simpl. split; [|done].
    by apply nodesBeforeFilter_has_grant.
Qed.

(** ** The connectivity filter *)

Lemma nodesWithLinks_acc (links : list LocalSankeyLink) (acc : gset string) k :
  k ∈ foldl (fun a link => {[ target link ]} ∪ ({[ source link ]} ∪ a)) acc links
  ↔ k ∈ acc ∨ ∃ link, link ∈ links ∧ incident k link.
Proof.
  revert acc. induction links as [|l links IH]; intros acc; simpl.
  - split; [by left|]. by intros [?|(? & ?%elem_of_nil & _)].
  - rewrite IH. unfold incident. setoid_rewrite elem_of_cons. split.
    + intros [Hk | (l' & ? & ?)].
      * apply elem_of_union in Hk as [->%elem_of_singleton | Hk].
        { right. exists l. auto. }
        apply elem_of_union in Hk as [->%elem_of_singleton | Hk]; [|by left].
        right. exists l. auto.
      * right. exists l'. auto.
    + intros [Hk | (l' & [-> | ?] & Hinc)].
      * left. rewrite !elem_of_union. auto.
      * left. rewrite !elem_of_union, !elem_of_singleton.
        destruct Hinc as [<- | <-]; auto.
      * right. by exists l'.
Qed.

Lemma elem_of_nodesWithLinks (links : list LocalSankeyLink) k :
  k ∈ nodesWithLinks links ↔ ∃ link, link ∈ links ∧ incident k link.
Proof.
  unfold nodesWithLinks. rewrite nodesWithLinks_acc.
  split; [intros [?%not_elem_of_empty|] | intros; right]; done.
Qed.

Lemma connectivityFilter_nodes m links :
  uniqueKeys m →
  (connectivityFilter m links).1
  = List.filter (fun kv => bool_decide (kv.1 ∈ nodesWithLinks links)) m.
Proof.
  intros Hm. unfold connectivityFilter. simpl.
  by rewrite (filterKeys_filter (fun k => bool_decide (k ∈ nodesWithLinks links))).
Qed.

Lemma connectivityFilter_get m links k :
  uniqueKeys m →
  get k (connectivityFilter m links).1
  = if bool_decide (k ∈ nodesWithLinks links) then get k m else None.
Proof.
  intros Hm. rewrite connectivityFilter_nodes by done.
  exact (get_filter (fun k' : string => bool_decide (k' ∈ nodesWithLinks links)) k m).
Qed.

Lemma connectivityFilter_has m links k :
  uniqueKeys m →
  has k (connectivityFilter m links).1 = true
  ↔ has k m = true ∧ ∃ link, link ∈ links ∧ incident k link.
Proof.
  intros Hm. unfold has at 1. rewrite connectivityFilter_get by done.
  rewrite <- elem_of_nodesWithLinks. unfold has.
  case_bool_decide as Hk; destruct (get k m); split; try done; by intros [? ?].
Qed.

Lemma connectivityFilter_uniqueKeys m links :
  uniqueKeys m → uniqueKeys (connectivityFilter m links).1.
Proof.
  intros Hm. rewrite connectivityFilter_nodes by done.
  exact (uniqueKeys_filter (fun k => bool_decide (k ∈ nodesWithLinks links)) m Hm).
Qed.

Lemma connectivityFilter_links_elem m links link :
  link ∈ (connectivityFilter m links).2 → link ∈ links.
Proof.
  unfold connectivityFilter. simpl.
  rewrite !list_elem_of_In, filter_In. tauto.
Qed.
End StateFacts.

(** * Facts about the built graph *)

Section GraphFacts.
Import JsMap JsMapFacts.

Variable recipientProfiles : gmap string NeynarUserProfile.

Implicit Types (item : GrantItem) (items : list GrantItem).
Implicit Types (m : JsMap.t LocalSankeyNode) (k : string) (v : LocalSankeyNode).

Lemma buildGraph_nodes items :
  nodes (buildGraph recipientProfiles items)
  = values (filteredNodesMap recipientProfiles items).
Proof.
  unfold buildGraph, filteredNodesMap, filteredState, nodesAfterFundingCheck.
  by destruct (connectivityFilter _ _).
Qed.

Lemma buildGraph_links items :
  links (buildGraph recipientProfiles items)
  = (connectivityFilter (nodesAfterFundingCheck recipientProfiles items)
       (linksBeforeFilter recipientProfiles items)).2.
Proof.
  unfold buildGraph, nodesAfterFundingCheck.
  by destruct (connectivityFilter _ _).
Qed.

Lemma existsb_source_funding (ls : list LocalSankeyLink) :
  existsb (fun link => bool_decide (source link = FUNDING_SOURCE_ID)) ls = true
  ↔ ∃ link, link ∈ ls ∧ source link = FUNDING_SOURCE_ID.
Proof.
  rewrite existsb_exists. setoid_rewrite bool_decide_eq_true.
  by setoid_rewrite list_elem_of_In.
Qed.

Lemma nodesAfterFundingCheck_uniqueKeys items :
  uniqueKeys (nodesAfterFundingCheck recipientProfiles items).
Proof.
  unfold nodesAfterFundingCheck, dropUnusedFundingSource.
  destruct (negb _); [apply uniqueKeys_delete|]; apply nodesBeforeFilter_uniqueKeys.
Qed.

Lemma nodesAfterFundingCheck_get items k v :
  get k (nodesAfterFundingCheck recipientProfiles items) = Some v →
  get k (nodesBeforeFilter recipientProfiles items) = Some v.
Proof.
  unfold nodesAfterFundingCheck, dropUnusedFundingSource.
  destruct (negb _); [|done]. rewrite get_delete. by case_bool_decide.
Qed.

Lemma nodesAfterFundingCheck_has_other items k :
  k ≠ FUNDING_SOURCE_ID →
  has k (nodesAfterFundingCheck recipientProfiles items)
  = has k (nodesBeforeFilter recipientProfiles items).
Proof.
  intros Hk. unfold nodesAfterFundingCheck, dropUnusedFundingSource.
  destruct (negb _); [|done]. rewrite has_delete.
  by rewrite bool_decide_eq_false_2.
Qed.

(** The funding source stays exactly when a link leaves it. *)
Lemma nodesAfterFundingCheck_has_funding items :
  has FUNDING_SOURCE_ID (nodesAfterFundingCheck recipientProfiles items) = true
  ↔ ∃ link, link ∈ linksBeforeFilter recipientProfiles items
            ∧ source link = FUNDING_SOURCE_ID.
Proof.
  rewrite <- existsb_source_funding.
  unfold nodesAfterFundingCheck, dropUnusedFundingSource.
  destruct (existsb _ _) eqn:E; simpl.
  - split; [done|]. intros _. apply nodesBeforeFilter_has_funding.
  - rewrite has_delete. by rewrite bool_decide_eq_true_2.
Qed.

Lemma filteredNodesMap_uniqueKeys items :
  uniqueKeys (filteredNodesMap recipientProfiles items).
Proof. apply connectivityFilter_uniqueKeys, nodesAfterFundingCheck_uniqueKeys. Qed.

Lemma filteredNodesMap_get items k v :
  get k (filteredNodesMap recipientProfiles items) = Some v →
  get k (nodesBeforeFilter recipientProfiles items) = Some v.
Proof.
  unfold filteredNodesMap, filteredState.
  rewrite connectivityFilter_get by apply nodesAfterFundingCheck_uniqueKeys.
  case_bool_decide; [|done]. apply nodesAfterFundingCheck_get.
Qed.

(** A node of the graph is the entry of the filtered map under its own id. *)
Lemma elem_of_nodes items v :
  v ∈ nodes (buildGraph recipientProfiles items)
  ↔ get (nodeId v) (filteredNodesMap recipientProfiles items) = Some v.
Proof.
  rewrite buildGraph_nodes, values_elem. split.
  - intros [k Hk].
    apply elem_get in Hk; [|apply filteredNodesMap_uniqueKeys].
    pose proof (filteredNodesMap_get _ _ _ Hk) as H0.
    apply nodesBeforeFilter_origin, nodeOrigin_nodeId in H0. by subst k.
  - intros Hg. exists (nodeId v). by apply get_Some_elem.
Qed.

Lemma nodes_origin items v :
  v ∈ nodes (buildGraph recipientProfiles items) →
  nodeOrigin recipientProfiles items (nodeId v) v.
Proof.
  rewrite elem_of_nodes. intros Hg.
  by apply nodesBeforeFilter_origin, filteredNodesMap_get.
Qed.

Lemma nodeIds_keys items :
  nodeId <$> nodes (buildGraph recipientProfiles items)
  = keys (filteredNodesMap recipientProfiles items).
Proof.
  rewrite buildGraph_nodes. unfold values, keys.
  rewrite <- list_fmap_compose. apply list_fmap_ext.
  intros i [k v] Hi. simpl.
  apply list_elem_of_lookup_2, elem_get in Hi; [|apply filteredNodesMap_uniqueKeys].
  by apply filteredNodesMap_get, nodesBeforeFilter_origin, nodeOrigin_nodeId in Hi.
Qed.

Lemma links_elem items link :
  link ∈ links (buildGraph recipientProfiles items) ↔
  link ∈ linksBeforeFilter recipientProfiles items
  ∧ has (source link) (filteredNodesMap recipientProfiles items) = true
  ∧ has (target link) (filteredNodesMap recipientProfiles items) = true.
Proof.
  rewrite buildGraph_links. unfold filteredNodesMap, filteredState, connectivityFilter. simpl.
  rewrite !list_elem_of_In, filter_In, andb_true_iff. tauto.
Qed.
End GraphFacts.

(** * The worked examples *)

Section Examples.
Import Samples.

(** C7. On the single grant g1 (no upstream flow, recipient 0xabc, incoming
    flow 100, outgoing flow 0) and no profile, the graph has the three nodes
    Funding Source, g1 and recipient_0xabc, in this order, and the two links
    Funding Source -> g1 and g1 -> recipient_0xabc, both of value 100. *)
Theorem example_single_terminal_grant :
  renderedGraph ∅ [g1]
  = Some {| nodes := [ fundingSourceNode; grantNode g1; recipientNode ∅ g1 ];
            links := [ {| source := FUNDING_SOURCE_ID; target := "g1";
                          value := JsNumber.of_Z 100 |};
                       {| source := "g1"; target := "recipient_0xabc";
                          value := JsNumber.of_Z 100 |} ] |}
  ∧ nodeId <$> [ fundingSourceNode; grantNode g1; recipientNode ∅ g1 ]
    = [ FUNDING_SOURCE_ID; "g1"; "recipient_0xabc" ].
Proof. split; vm_compute; reflexivity. Qed.

(** C8. With an incoming flow of 0 the same grant gives a graph with no node
    and no link: no link is built at all, the funding source is removed for
    want of a link leaving it, and both g1 and the recipient node, which was
    created, fall to the connectivity filter. *)
Theorem example_idle_grant_empty_graph :
  renderedGraph ∅ [g1_idle] = Some {| nodes := []; links := [] |}
  ∧ linksBeforeFilter ∅ [g1_idle] = []
  ∧ JsMap.keys (nodesBeforeFilter ∅ [g1_idle])
    = [ FUNDING_SOURCE_ID; "g1"; "recipient_0xabc" ]
  ∧ JsMap.keys (nodesAfterFundingCheck ∅ [g1_idle]) = [ "g1"; "recipient_0xabc" ]
  ∧ JsMap.keys (filteredNodesMap ∅ [g1_idle]) = [].
Proof. repeat split; vm_compute; reflexivity. Qed.
End Examples.

(** * Invariants of the built graph *)

Section Invariants.
Import JsMap JsMapFacts.

Variable recipientProfiles : gmap string NeynarUserProfile.

Implicit Types (item : GrantItem) (items : list GrantItem).

(** A node with the funding source id is among the nodes of the graph
    exactly when a link of the graph has the funding source id as source. *)
Lemma funding_source_present_iff_sourced items :
  (∃ node, node ∈ nodes (buildGraph recipientProfiles items)
           ∧ nodeId node = FUNDING_SOURCE_ID)
  ↔ (∃ link, link ∈ links (buildGraph recipientProfiles items)
             ∧ source link = FUNDING_SOURCE_ID).
Proof.
  pose proof (nodesAfterFundingCheck_uniqueKeys recipientProfiles items) as Huniq.
  split.
  - intros (node & Hnode & Hid).
    apply elem_of_nodes in Hnode. rewrite Hid in Hnode.
    assert (has FUNDING_SOURCE_ID (filteredNodesMap recipientProfiles items) = true)
      as Hfiltered by (unfold has; by rewrite Hnode).
    pose proof Hfiltered as Hkept.
    apply connectivityFilter_has in Hkept as [Hkept _]; [|done].
    apply nodesAfterFundingCheck_has_funding in Hkept as (link & Hlink & Hsrc).
    exists link. split; [|done].
    apply links_elem. split_and!; [done | by rewrite Hsrc |].
    apply connectivityFilter_has; [done|]. split.
    + destruct (decide (target link = FUNDING_SOURCE_ID)) as [->|Hne].
      * by apply connectivityFilter_has in Hfiltered as [? _].
      * rewrite nodesAfterFundingCheck_has_other by done.
        by apply linksBeforeFilter_closed.
    + exists link. split; [done | by right].
  - intros (link & (_ & Hsrc & _)%links_elem & Hid).
    rewrite Hid in Hsrc. unfold has in Hsrc.
    destruct (get FUNDING_SOURCE_ID _) as [node|] eqn:Hnode; [|done].
    exists node.
    pose proof (filteredNodesMap_get _ _ _ _ Hnode) as Horigin.
    apply nodesBeforeFilter_origin, nodeOrigin_nodeId in Horigin.
    split; [|done]. apply elem_of_nodes. by rewrite Horigin.
Qed.
(** With no grant under the reserved id, the synthetic node stays under it
    through both node loops. *)
Lemma nodesBeforeFilter_get_funding items :
  (∀ item, item ∈ items → id item ≠ FUNDING_SOURCE_ID) →
  get FUNDING_SOURCE_ID (nodesBeforeFilter recipientProfiles items)
  = Some fundingSourceNode.
Proof.
  intros Hids. unfold nodesBeforeFilter. apply addRecipientNodes_get_kept.
  by rewrite addGrantNodes_get_other.
Qed.

(** C4, as the code has it: for every input a node with the funding source
    id is among the nodes of the graph exactly when a link of the graph has
    the funding source id as source; when no grant of the input carries the
    reserved id that node is the synthetic funding source, so the synthetic
    funding source node is among the nodes of the graph exactly when a link
    of the graph has the funding source id as source. *)
Theorem funding_source_node_present_iff_sourced items :
  ((∃ node, node ∈ nodes (buildGraph recipientProfiles items)
            ∧ nodeId node = FUNDING_SOURCE_ID)
   ↔ (∃ link, link ∈ links (buildGraph recipientProfiles items)
              ∧ source link = FUNDING_SOURCE_ID))
  ∧ ((∀ item, item ∈ items → id item ≠ FUNDING_SOURCE_ID) →
     (fundingSourceNode ∈ nodes (buildGraph recipientProfiles items)
      ↔ (∃ link, link ∈ links (buildGraph recipientProfiles items)
                 ∧ source link = FUNDING_SOURCE_ID))).
Proof.
  split; [apply funding_source_present_iff_sourced|].
  intros Hids. rewrite <- funding_source_present_iff_sourced. split.
  - intros Hnode. by exists fundingSourceNode.
  - intros (node & Hnode & Hid).
    pose proof Hnode as Hget. apply elem_of_nodes in Hget. rewrite Hid in Hget.
    apply filteredNodesMap_get in Hget.
    rewrite (nodesBeforeFilter_get_funding items Hids) in Hget.
    by injection Hget as <-.
Qed.
End Invariants.

(** C4, witness: the worked example; the synthetic node is in its graph. *)
Lemma funding_source_node_present_iff_sourced_witness :
  (∀ item, item ∈ [Samples.g1] → id item ≠ FUNDING_SOURCE_ID)
  ∧ (fundingSourceNode ∈ nodes (buildGraph ∅ [Samples.g1])
     ↔ (∃ link, link ∈ links (buildGraph ∅ [Samples.g1])
                ∧ source link = FUNDING_SOURCE_ID)).
Proof.
  assert (∀ item, item ∈ [Samples.g1] → id item ≠ FUNDING_SOURCE_ID) as Hids.
  { intros item ->%list_elem_of_singleton. vm_compute. discriminate. }
  split; [exact Hids|].
  exact (proj2 (funding_source_node_present_iff_sourced ∅ [Samples.g1]) Hids).
Defined.

(** C4, counterexample: a grant under the reserved id, funded from nowhere.
    Its inbound link leaves the reserved id, so a link of the graph has the
    funding source id as source; the only node of the graph is the grant's
    node, the synthetic funding source is not in the graph. *)
Lemma funding_source_link_without_synthetic_node :
  links (buildGraph ∅ [Samples.impostor])
  = [ {| source := FUNDING_SOURCE_ID; target := FUNDING_SOURCE_ID;
         value := JsNumber.of_Z 5 |} ]
  ∧ nodes (buildGraph ∅ [Samples.impostor]) = [ grantNode Samples.impostor ]
  ∧ fundingSourceNode ∉ nodes (buildGraph ∅ [Samples.impostor]).
Proof.
  assert (nodes (buildGraph ∅ [Samples.impostor]) = [ grantNode Samples.impostor ])
    as Hnodes by (vm_compute; reflexivity).
  split_and!; [vm_compute; reflexivity | done |].
  rewrite Hnodes. intros Heq%list_elem_of_singleton.
  vm_compute in Heq. discriminate Heq.
Qed.

(** * The connectivity filter on its own *)

Section FilterIdempotence.
Import JsMap JsMapFacts.

Implicit Types (m : JsMap.t LocalSankeyNode) (ls : list LocalSankeyLink) (k : string).

Lemma List_filter_all {A} (f : A -> bool) (l : list A) :
  (∀ a, a ∈ l → f a = true) → List.filter f l = l.
Proof.
  induction l as [|a l IH]; intros Hall; simpl; [done|].
  rewrite Hall by apply list_elem_of_here.
  f_equal. apply IH. intros b Hb. apply Hall. by apply list_elem_of_further.
Qed.

Lemma List_filter_twice {A} (f : A -> bool) (l : list A) :
  List.filter f (List.filter f l) = List.filter f l.
Proof.
  apply List_filter_all. intros a. rewrite list_elem_of_In, filter_In. tauto.
Qed.

(** With closed links the filter keeps every link. *)
Lemma connectivityFilter_links_closed m ls :
  uniqueKeys m → closedLinks m ls = true → (connectivityFilter m ls).2 = ls.
Proof.
  intros Hm Hclosed.
  change ((connectivityFilter m ls).2)
    with (List.filter (fun link => has (source link) (connectivityFilter m ls).1
                                   && has (target link) (connectivityFilter m ls).1) ls).
  apply List_filter_all. intros link Hlink.
  destruct (proj1 (closedLinks_spec m ls) Hclosed link Hlink) as [Hs Ht].
  apply andb_true_iff.
  split; apply connectivityFilter_has; try done; (split; [done|]);
    exists link; (split; [done|]); [by left | by right].
Qed.

Lemma connectivityFilter_nodes_twice m ls :
  uniqueKeys m →
  (connectivityFilter (connectivityFilter m ls).1 ls).1 = (connectivityFilter m ls).1.
Proof.
  intros Hm.
  rewrite (connectivityFilter_nodes _ ls (connectivityFilter_uniqueKeys m ls Hm)).
  rewrite connectivityFilter_nodes by done.
  exact (List_filter_twice
           (fun kv : string * LocalSankeyNode => bool_decide (kv.1 ∈ nodesWithLinks ls)) m).
Qed.

Lemma connectivityFilter_fixpoint m ls :
  uniqueKeys m → closedLinks m ls = true →
  connectivityFilter (connectivityFilter m ls).1 (connectivityFilter m ls).2
  = connectivityFilter m ls.
Proof.
  intros Hm Hclosed.
  rewrite (connectivityFilter_links_closed m ls Hm Hclosed).
  rewrite (surjective_pairing (connectivityFilter (connectivityFilter m ls).1 ls)).
  rewrite (surjective_pairing (connectivityFilter m ls)) at 3.
  rewrite connectivityFilter_nodes_twice by done.
  f_equal.
  rewrite (connectivityFilter_links_closed m ls Hm Hclosed).
  change ((connectivityFilter (connectivityFilter m ls).1 ls).2)
    with (List.filter
            (fun link =>
               has (source link) (connectivityFilter (connectivityFilter m ls).1 ls).1
               && has (target link) (connectivityFilter (connectivityFilter m ls).1 ls).1)
            ls).
  rewrite connectivityFilter_nodes_twice by done.
  exact (connectivityFilter_links_closed m ls Hm Hclosed).
Qed.

(** C9, as the code has it: the connectivity filter keeps exactly the keys
    of the map that some link of the list touches, so every node without an
    incident link goes.  When every end of every link is a key of the map,
    filtering the filtered pair again gives the same pair. *)
Theorem connectivity_filter_idempotent_when_closed m ls :
  uniqueKeys m →
  (∀ k, has k (connectivityFilter m ls).1 = true
        ↔ has k m = true ∧ ∃ link, link ∈ ls ∧ incident k link)
  ∧ (closedLinks m ls = true →
     connectivityFilter (connectivityFilter m ls).1 (connectivityFilter m ls).2
     = connectivityFilter m ls).
Proof.
  intros Hm. split.
  - intros k. by apply connectivityFilter_has.
  - intros Hclosed. by apply connectivityFilter_fixpoint.
Qed.
End FilterIdempotence.

Section FilterOnBuiltState.
Import JsMap JsMapFacts Samples.

(** C9, witness: the state built from the worked example. *)
Lemma connectivity_filter_idempotent_witness :
  uniqueKeys (nodesAfterFundingCheck ∅ [g1])
  ∧ closedLinks (nodesAfterFundingCheck ∅ [g1]) (linksBeforeFilter ∅ [g1]) = true
  ∧ connectivityFilter (filteredState ∅ [g1]).1 (filteredState ∅ [g1]).2
    = filteredState ∅ [g1].
Proof.
  assert (uniqueKeys (nodesAfterFundingCheck ∅ [g1])) as Hm
    by apply nodesAfterFundingCheck_uniqueKeys.
  assert (closedLinks (nodesAfterFundingCheck ∅ [g1]) (linksBeforeFilter ∅ [g1]) = true)
    as Hclosed by (vm_compute; reflexivity).
  split_and!; [done | done |].
  exact (proj2 (connectivity_filter_idempotent_when_closed
                  (nodesAfterFundingCheck ∅ [g1]) (linksBeforeFilter ∅ [g1]) Hm) Hclosed).
Defined.

(** C9, counterexample: a grant under the reserved id, funded by an idle g1.
    The only link is g1 -> reserved id; no link leaves the reserved id, so
    its node is deleted before the filter.  The filter keeps g1, which the
    link touches, and drops the link, whose target is gone: the result holds
    a node without a link, and filtering again removes it. *)
Lemma connectivity_filter_not_idempotent :
  keys (nodesAfterFundingCheck ∅ [impostorFed; upstreamIdle]) = [ "g1" ]
  ∧ linksBeforeFilter ∅ [impostorFed; upstreamIdle]
    = [ {| source := "g1"; target := FUNDING_SOURCE_ID; value := JsNumber.of_Z 5 |} ]
  ∧ keys (filteredState ∅ [impostorFed; upstreamIdle]).1 = [ "g1" ]
  ∧ (filteredState ∅ [impostorFed; upstreamIdle]).2 = []
  ∧ connectivityFilter (filteredState ∅ [impostorFed; upstreamIdle]).1
      (filteredState ∅ [impostorFed; upstreamIdle]).2
    = ([], [])
  ∧ connectivityFilter (filteredState ∅ [impostorFed; upstreamIdle]).1
      (filteredState ∅ [impostorFed; upstreamIdle]).2
    ≠ filteredState ∅ [impostorFed; upstreamIdle].
Proof.
  split_and!; try (vm_compute; reflexivity).
  vm_compute. discriminate.
Qed.
End FilterOnBuiltState.

(** * Node identity *)

Section NodeIdentity.
Import JsMap JsMapFacts Samples.

Variable recipientProfiles : gmap string NeynarUserProfile.

Implicit Types (item : GrantItem) (items : list GrantItem).

(** C2, as the code has it: node ids are unique in the graph, two nodes with
    the same id are one node, and a recipient node is the node built for
    a terminal grant of the input, under the prefix followed by that grant's
    recipient address as spelled.  So there is at most one recipient node for
    each exact address string. *)
Theorem recipient_nodes_unique_per_exact_address items :
  NoDup (nodeId <$> nodes (buildGraph recipientProfiles items))
  ∧ (∀ n1 n2, n1 ∈ nodes (buildGraph recipientProfiles items) →
              n2 ∈ nodes (buildGraph recipientProfiles items) →
              nodeId n1 = nodeId n2 → n1 = n2)
  ∧ (∀ node, node ∈ nodes (buildGraph recipientProfiles items) →
             isRecipient node = Some true →
             ∃ item, item ∈ items ∧ isTerminal item = true
                     ∧ node = recipientNode recipientProfiles item
                     ∧ nodeId node = RECIPIENT_PREFIX +:+ recipient item).
Proof.
  split_and!.
  - rewrite nodeIds_keys. apply filteredNodesMap_uniqueKeys.
  - intros n1 n2 H1%elem_of_nodes H2%elem_of_nodes Hid.
    rewrite Hid in H1. congruence.
  - intros node Hnode%nodes_origin Hrec.
    inversion Hnode as [Hk Hv | item Hin Hk Hv | item Hin Hterm Hk Hv].
    + rewrite <- Hv in Hrec. discriminate.
    + rewrite <- Hv in Hrec. discriminate.
    + exists item. by split_and!.
Qed.

(** C2, counterexample: two terminal grants pay 0xAB and 0xab.  Both
    recipient nodes are in the graph, their ids differ only by letter case. *)
Lemma recipient_nodes_differ_by_case_only :
  nodeId <$> nodes (buildGraph ∅ [paysUpper; paysLower])
  = [ FUNDING_SOURCE_ID; "a"; "b"; "recipient_0xAB"; "recipient_0xab" ]
  ∧ ¬ recipientsDistinctUpToCase (buildGraph ∅ [paysUpper; paysLower]).
Proof.
  split; [vm_compute; reflexivity|].
  intros Hclaim.
  assert (nodes (buildGraph ∅ [paysUpper; paysLower])
          = [ fundingSourceNode; grantNode paysUpper; grantNode paysLower;
              recipientNode ∅ paysUpper; recipientNode ∅ paysLower ]) as Hnodes
    by (vm_compute; reflexivity).
  specialize (Hclaim (recipientNode ∅ paysUpper) (recipientNode ∅ paysLower)).
  rewrite Hnodes in Hclaim.
  assert (recipientNode ∅ paysUpper = recipientNode ∅ paysLower) as Heq.
  { apply Hclaim; try reflexivity.
    - do 3 apply list_elem_of_further. apply list_elem_of_here.
    - do 4 apply list_elem_of_further. apply list_elem_of_here. }
  vm_compute in Heq. discriminate Heq.
Qed.

Lemma recipientId_not_funding_source item : recipientId item ≠ FUNDING_SOURCE_ID.
Proof. unfold recipientId, RECIPIENT_PREFIX, FUNDING_SOURCE_ID. simpl. discriminate. Qed.

(** C3, as the code has it: when no grant of the input carries the reserved
    id, the node under the reserved id before the filter is the synthetic
    funding source, and a node of the graph with the reserved id is the
    synthetic funding source, named Funding Source. *)
Theorem funding_source_id_holds_synthetic_node items :
  (∀ item, item ∈ items → id item ≠ FUNDING_SOURCE_ID) →
  get FUNDING_SOURCE_ID (nodesBeforeFilter recipientProfiles items)
  = Some fundingSourceNode
  ∧ (∀ node, node ∈ nodes (buildGraph recipientProfiles items) →
             nodeId node = FUNDING_SOURCE_ID →
             node = fundingSourceNode ∧ name node = "Funding Source").
Proof.
  intros Hids.
  assert (get FUNDING_SOURCE_ID (nodesBeforeFilter recipientProfiles items)
          = Some fundingSourceNode) as Hfunding.
  { unfold nodesBeforeFilter. apply addRecipientNodes_get_kept.
    by rewrite addGrantNodes_get_other. }
  split; [done|].
  intros node Hnode%elem_of_nodes Hid. rewrite Hid in Hnode.
  apply filteredNodesMap_get in Hnode. rewrite Hfunding in Hnode.
  by injection Hnode as <-.
Qed.

(** C3, counterexample: a grant whose id is the reserved id replaces the
    synthetic node; the node under the reserved id is then that grant's node,
    in the map and in the graph. *)
Lemma funding_source_id_taken_by_grant :
  get FUNDING_SOURCE_ID (nodesBeforeFilter ∅ [impostor]) = Some (grantNode impostor)
  ∧ nodes (buildGraph ∅ [impostor]) = [ grantNode impostor ]
  ∧ nodeId (grantNode impostor) = FUNDING_SOURCE_ID
  ∧ originalData (grantNode impostor) = Some impostor
  ∧ name (grantNode impostor) = "Treasury"
  ∧ grantNode impostor ≠ fundingSourceNode.
Proof. split_and!; try (vm_compute; reflexivity). vm_compute. discriminate. Qed.
(** When no grant carries the reserved id, the links built before the filter
    are closed over the node map the filter receives, so the graph the
    builder returns is a fixed point of the filter. *)
Lemma built_state_closed items :
  (∀ item, item ∈ items → id item ≠ FUNDING_SOURCE_ID) →
  closedLinks (nodesAfterFundingCheck recipientProfiles items)
              (linksBeforeFilter recipientProfiles items) = true.
Proof.
  intros Hids. apply closedLinks_spec. intros link Hlink.
  destruct (linksBeforeFilter_closed recipientProfiles items link Hlink) as [Hs Ht].
  split.
  - destruct (decide (source link = FUNDING_SOURCE_ID)) as [Heq|Hne].
    + rewrite Heq. apply nodesAfterFundingCheck_has_funding. by exists link.
    + by rewrite nodesAfterFundingCheck_has_other.
  - rewrite nodesAfterFundingCheck_has_other; [done|].
    rewrite linksBeforeFilter_eq, elem_of_app, !elem_of_flat_map in Hlink.
    destruct Hlink as [(x & Hx & Hl) | (x & Hx & Hl)].
    + apply inboundLinks_elem in Hl as [-> _]. simpl. by apply Hids.
    + apply recipientLinks_elem in Hl as [-> _]. simpl.
      apply recipientId_not_funding_source.
Qed.

Lemma built_graph_fixed_point items :
  (∀ item, item ∈ items → id item ≠ FUNDING_SOURCE_ID) →
  connectivityFilter (filteredState recipientProfiles items).1
    (filteredState recipientProfiles items).2
  = filteredState recipientProfiles items.
Proof.
  intros Hids. apply connectivityFilter_fixpoint.
  - apply nodesAfterFundingCheck_uniqueKeys.
  - by apply built_state_closed.
Qed.
End NodeIdentity.

(** C3, witness: the worked example. *)
Lemma funding_source_id_holds_synthetic_node_witness :
  (∀ item, item ∈ [Samples.g1] → id item ≠ FUNDING_SOURCE_ID)
  ∧ JsMap.get FUNDING_SOURCE_ID (nodesBeforeFilter ∅ [Samples.g1]) = Some fundingSourceNode.
Proof.
  assert (∀ item, item ∈ [Samples.g1] → id item ≠ FUNDING_SOURCE_ID) as Hids.
  { intros item ->%list_elem_of_singleton. vm_compute. discriminate. }
  split; [exact Hids|].
  exact (proj1 (funding_source_id_holds_synthetic_node ∅ [Samples.g1] Hids)).
Defined.

(** * Links *)

Section Links.
Import JsMap JsMapFacts.

Variable recipientProfiles : gmap string NeynarUserProfile.

Implicit Types (item : GrantItem) (items pre post : list GrantItem).

Lemma gt_zero_not_le (x : JsNumber.number) :
  JsNumber.gt x JsNumber.zero = true → JsNumber.le x JsNumber.zero = false.
Proof. by destruct x as [[]|[]| |[] ? ?]. Qed.

Lemma truthy_nonempty (s : string) : JsString.truthy s = true ↔ s ≠ "".
Proof. by destruct s. Qed.

Lemma elem_of_middle {A} (x : A) (l1 l2 : list A) : x ∈ l1 ++ x :: l2.
Proof. apply elem_of_app. right. apply list_elem_of_here. Qed.

Lemma flat_map_middle {A B} (f : A -> list B) (l1 l2 : list A) (x : A) :
  flat_map f (l1 ++ x :: l2) = flat_map f l1 ++ f x ++ flat_map f l2.
Proof. by rewrite flat_map_app. Qed.

Lemma inboundLinks_positive nodesMap item :
  JsNumber.gt (JsNumber.parseFloat (monthlyIncomingFlowRate item)) JsNumber.zero = true →
  has (id item) nodesMap = true →
  inboundLinks nodesMap item
  = [ {| source := actualSourceId nodesMap item; target := id item;
         value := JsNumber.parseFloat (monthlyIncomingFlowRate item) |} ].
Proof.
  intros Hpos Hid. unfold inboundLinks.
  by rewrite (gt_zero_not_le _ Hpos), Hid.
Qed.

Lemma recipientLinks_positive nodesMap item :
  isTerminal item = true →
  JsNumber.gt (JsNumber.parseFloat (monthlyIncomingFlowRate item)) JsNumber.zero = true →
  has (recipientId item) nodesMap = true →
  recipientLinks nodesMap item
  = [ {| source := id item; target := recipientId item;
         value := JsNumber.parseFloat (monthlyIncomingFlowRate item) |} ].
Proof.
  intros Hterm Hpos Hid. unfold recipientLinks. by rewrite Hterm, Hpos, Hid.
Qed.

(** The links of the graph are links built before the filter, as built. *)
Lemma links_filtered items :
  ∃ keep, links (buildGraph recipientProfiles items)
          = List.filter keep (linksBeforeFilter recipientProfiles items).
Proof.
  rewrite buildGraph_links. unfold connectivityFilter. simpl. eauto.
Qed.

Lemma recipientId_inj item1 item2 :
  recipientId item1 = recipientId item2 → recipient item1 = recipient item2.
Proof. unfold recipientId, RECIPIENT_PREFIX. simpl. by intros [= ?]. Qed.

(** The recipient node is made from the recipient address alone. *)
Lemma recipientNode_same_recipient item1 item2 :
  recipient item1 = recipient item2 →
  recipientNode recipientProfiles item1 = recipientNode recipientProfiles item2.
Proof. intros Heq. unfold recipientNode, recipientId. by rewrite Heq. Qed.

(** After the first pass the key of a grant holds the node of a grant with
    that id. *)
Lemma addGrantNodes_get_grant items item m :
  item ∈ items →
  ∃ x, x ∈ items ∧ id x = id item
       ∧ get (id item) (addGrantNodes items m) = Some (grantNode x).
Proof.
  induction items as [|last items IH] using rev_ind; [by intros ?%elem_of_nil|].
  intros Hin. rewrite addGrantNodes_snoc, get_set.
  assert (last ∈ items ++ [last]) as Hlast
    by (apply elem_of_app; right; apply list_elem_of_here).
  case_bool_decide as Hid.
  - by exists last.
  - apply elem_of_app in Hin as [Hin | ->%list_elem_of_singleton]; [|done].
    destruct (IH Hin) as (x & Hx & Hidx & Hget).
    exists x. split_and!; [|done..]. apply elem_of_app. by left.
Qed.

Lemma nodesBeforeFilter_get_grant items item :
  item ∈ items →
  ∃ x, x ∈ items ∧ id x = id item
       ∧ get (id item) (nodesBeforeFilter recipientProfiles items) = Some (grantNode x).
Proof.
  intros Hin. unfold nodesBeforeFilter.
  destruct (addGrantNodes_get_grant items item
              (set FUNDING_SOURCE_ID fundingSourceNode empty) Hin)
    as (x & Hx & Hid & Hget).
  exists x. split_and!; [done..|]. by apply addRecipientNodes_get_kept.
Qed.

(** When no grant carries the recipient id of a terminal grant, the node
    under that id is the recipient node of that grant. *)
Lemma nodesBeforeFilter_get_recipient items item :
  item ∈ items → isTerminal item = true →
  (∀ x, x ∈ items → id x ≠ recipientId item) →
  get (recipientId item) (nodesBeforeFilter recipientProfiles items)
  = Some (recipientNode recipientProfiles item).
Proof.
  intros Hin Hterm Hfree.
  pose proof (nodesBeforeFilter_has_recipient recipientProfiles items item Hin Hterm)
    as Hhas.
  unfold has in Hhas.
  destruct (get (recipientId item) (nodesBeforeFilter recipientProfiles items))
    as [node|] eqn:Hnode; [|done].
  f_equal. unfold nodesBeforeFilter in Hnode.
  apply addRecipientNodes_get in Hnode as [Hstart | (x & _ & _ & Hid & ->)].
  - rewrite addGrantNodes_get_other, get_set in Hstart by done.
    destruct (decide (FUNDING_SOURCE_ID = recipientId item)) as [Heq|Hne].
    + by apply eq_sym, recipientId_not_funding_source in Heq.
    + by rewrite bool_decide_eq_false_2 in Hstart by done.
  - by apply recipientNode_same_recipient, eq_sym, recipientId_inj.
Qed.

(** C5, as the code has it: a grant whose outgoing flow parses to 0, whose
    recipient is not empty and whose incoming flow parses to a positive
    number pushes exactly two links in the list built before the filter: one
    into the node under the grant's id in the first link loop and one from
    that node to the node under recipient_<address> in the second, both with
    the incoming flow as value.  The node under the grant's id is the node of
    a grant with that id.  The node under recipient_<address> is the grant's
    recipient node when no grant of the input has that id. *)
Theorem terminal_grant_contributes_two_links pre item post :
  let items := pre ++ item :: post in
  let nodesMap := nodesBeforeFilter recipientProfiles items in
  let flow := JsNumber.parseFloat (monthlyIncomingFlowRate item) in
  let inbound := {| source := actualSourceId nodesMap item; target := id item;
                    value := flow |} in
  let outbound := {| source := id item; target := RECIPIENT_PREFIX +:+ recipient item;
                     value := flow |} in
  JsNumber.strictEq (JsNumber.parseFloat (monthlyOutgoingFlowRate item)) JsNumber.zero = true →
  recipient item ≠ "" →
  JsNumber.gt flow JsNumber.zero = true →
  inboundLinks nodesMap item = [ inbound ]
  ∧ recipientLinks nodesMap item = [ outbound ]
  ∧ linksBeforeFilter recipientProfiles items
    = (flat_map (inboundLinks nodesMap) pre ++ [ inbound ]
         ++ flat_map (inboundLinks nodesMap) post)
      ++ (flat_map (recipientLinks nodesMap) pre ++ [ outbound ]
            ++ flat_map (recipientLinks nodesMap) post)
  ∧ value inbound = value outbound
  ∧ has (source inbound) nodesMap = true
  ∧ has (id item) nodesMap = true
  ∧ has (RECIPIENT_PREFIX +:+ recipient item) nodesMap = true
  ∧ (∃ x, x ∈ items ∧ id x = id item
          ∧ get (id item) nodesMap = Some (grantNode x))
  ∧ ((∀ x, x ∈ items → id x ≠ RECIPIENT_PREFIX +:+ recipient item) →
     get (RECIPIENT_PREFIX +:+ recipient item) nodesMap
     = Some (recipientNode recipientProfiles item)
     ∧ isRecipient (recipientNode recipientProfiles item) = Some true
     ∧ ∀ x, x ∈ items → grantNode x ≠ recipientNode recipientProfiles item).
Proof.
  intros items nodesMap flow inbound outbound Hzero Hrecipient Hpos.
  assert (isTerminal item = true) as Hterm.
  { unfold isTerminal. rewrite Hzero. by apply truthy_nonempty. }
  assert (item ∈ items) as Hin by apply elem_of_middle.
  assert (has (id item) nodesMap = true) as Hid
    by by apply nodesBeforeFilter_has_grant.
  assert (has (recipientId item) nodesMap = true) as Hrid
    by by apply nodesBeforeFilter_has_recipient.
  assert (inboundLinks nodesMap item = [ inbound ]) as Hinb
    by by apply inboundLinks_positive.
  assert (recipientLinks nodesMap item = [ outbound ]) as Hout
    by by apply recipientLinks_positive.
  split_and!; try done.
  - rewrite linksBeforeFilter_eq.
    change (nodesBeforeFilter recipientProfiles items) with nodesMap.
    unfold items. by rewrite !flat_map_middle, Hinb, Hout.
  - apply actualSourceId_has.
  - by apply nodesBeforeFilter_get_grant.
  - intros Hfree. split_and!; [|done|].
    + by apply (nodesBeforeFilter_get_recipient items item).
    + intros x _ Heq. by apply (f_equal isRecipient) in Heq.
Qed.

(** C6, as the code has it: a grant whose incoming flow parses to a positive
    number pushes exactly one link in the first link loop, into its own node
    and with the incoming flow as value.  Its source is the upstream flowId
    when that is neither null nor the empty string and is a key of the node
    map as it stands after both node loops; it is the funding source id in
    every other case.  The links of the graph are a selection of the links
    so built, none rebuilt after the filter. *)
Theorem inbound_link_source_fixed_at_construction pre item post :
  let items := pre ++ item :: post in
  let nodesMap := nodesBeforeFilter recipientProfiles items in
  let flow := JsNumber.parseFloat (monthlyIncomingFlowRate item) in
  JsNumber.gt flow JsNumber.zero = true →
  ∃ sourceId,
    inboundLinks nodesMap item
    = [ {| source := sourceId; target := id item; value := flow |} ]
    ∧ (∀ upstream, flowId item = Some upstream → upstream ≠ "" →
                   has upstream nodesMap = true → sourceId = upstream)
    ∧ (flowId item = None → sourceId = FUNDING_SOURCE_ID)
    ∧ (∀ upstream, flowId item = Some upstream →
                   upstream = "" ∨ has upstream nodesMap = false →
                   sourceId = FUNDING_SOURCE_ID)
    ∧ linksBeforeFilter recipientProfiles items
      = (flat_map (inboundLinks nodesMap) pre
           ++ [ {| source := sourceId; target := id item; value := flow |} ]
           ++ flat_map (inboundLinks nodesMap) post)
        ++ flat_map (recipientLinks nodesMap) items
    ∧ ∃ keep, links (buildGraph recipientProfiles items)
              = List.filter keep (linksBeforeFilter recipientProfiles items).
Proof.
  intros items nodesMap flow Hpos.
  assert (has (id item) nodesMap = true) as Hid
    by apply nodesBeforeFilter_has_grant, elem_of_middle.
  pose proof (inboundLinks_positive nodesMap item Hpos Hid) as Hinb.
  exists (actualSourceId nodesMap item).
  split_and!.
  - done.
  - intros upstream Hflow Hne Hhas. unfold actualSourceId.
    rewrite Hflow, Hhas. by rewrite (proj2 (truthy_nonempty upstream) Hne).
  - intros Hflow. unfold actualSourceId. by rewrite Hflow.
  - intros upstream Hflow [-> | Hhas]; unfold actualSourceId; rewrite Hflow.
    + done.
    + rewrite Hhas. by rewrite andb_false_r.
  - rewrite linksBeforeFilter_eq.
    change (nodesBeforeFilter recipientProfiles items) with nodesMap.
    unfold items at 1. by rewrite flat_map_middle, Hinb.
  - apply links_filtered.
Qed.
End Links.

Section LinkSamples.
Import JsMap Samples.

(** C5, witness: g1 followed by a grant it funds; no grant has the id of
    the recipient node of g1, which is the node under that id. *)
Lemma terminal_grant_contributes_two_links_witness :
  JsNumber.strictEq (JsNumber.parseFloat (monthlyOutgoingFlowRate g1)) JsNumber.zero = true
  ∧ recipient g1 ≠ ""
  ∧ JsNumber.gt (JsNumber.parseFloat (monthlyIncomingFlowRate g1)) JsNumber.zero = true
  ∧ recipientLinks (nodesBeforeFilter ∅ ([] ++ g1 :: [fundedByG1])) g1
    = [ {| source := id g1; target := RECIPIENT_PREFIX +:+ recipient g1;
           value := JsNumber.parseFloat (monthlyIncomingFlowRate g1) |} ]
  ∧ (∀ x, x ∈ [] ++ g1 :: [fundedByG1] → id x ≠ RECIPIENT_PREFIX +:+ recipient g1)
  ∧ get (RECIPIENT_PREFIX +:+ recipient g1)
        (nodesBeforeFilter ∅ ([] ++ g1 :: [fundedByG1]))
    = Some (recipientNode ∅ g1).
Proof.
  assert (JsNumber.strictEq (JsNumber.parseFloat (monthlyOutgoingFlowRate g1))
            JsNumber.zero = true) as Hzero by (vm_compute; reflexivity).
  assert (recipient g1 ≠ "") as Hrecipient by (vm_compute; discriminate).
  assert (JsNumber.gt (JsNumber.parseFloat (monthlyIncomingFlowRate g1))
            JsNumber.zero = true) as Hpos by (vm_compute; reflexivity).
  assert (∀ x, x ∈ [] ++ g1 :: [fundedByG1] → id x ≠ RECIPIENT_PREFIX +:+ recipient g1)
    as Hfree.
  { intros x [-> | ->%list_elem_of_singleton]%elem_of_cons; vm_compute; discriminate. }
  pose proof (terminal_grant_contributes_two_links ∅ [] g1 [fundedByG1]
                Hzero Hrecipient Hpos) as Htwo.
  destruct Htwo as (_ & Hpushed & _ & _ & _ & _ & _ & _ & Hnode).
  split_and!; [done | done | done | exact Hpushed | done |].
  exact (proj1 (Hnode Hfree)).
Defined.

(** C5, counterexample: a terminal grant with a positive incoming rate
    whose id is recipient_0xabc and whose recipient is 0xabc.  The recipient
    loop finds the key taken and creates no node: no node of the map is a
    recipient node, and the second link the grant pushes goes from the
    grant's node to the grant's node. *)
Lemma terminal_grant_link_without_recipient_node :
  JsNumber.strictEq (JsNumber.parseFloat (monthlyOutgoingFlowRate selfPay)) JsNumber.zero = true
  ∧ recipient selfPay ≠ ""
  ∧ JsNumber.gt (JsNumber.parseFloat (monthlyIncomingFlowRate selfPay)) JsNumber.zero = true
  ∧ values (nodesBeforeFilter ∅ [selfPay]) = [ fundingSourceNode; grantNode selfPay ]
  ∧ isRecipient fundingSourceNode = None
  ∧ isRecipient (grantNode selfPay) = None
  ∧ recipientLinks (nodesBeforeFilter ∅ [selfPay]) selfPay
    = [ {| source := "recipient_0xabc"; target := "recipient_0xabc";
           value := JsNumber.of_Z 100 |} ]
  ∧ get "recipient_0xabc" (nodesBeforeFilter ∅ [selfPay]) = Some (grantNode selfPay)
  ∧ nodes (buildGraph ∅ [selfPay]) = [ fundingSourceNode; grantNode selfPay ].
Proof. split_and!; try (vm_compute; reflexivity). vm_compute. discriminate. Qed.

(** C6, witness: the grant funded by g1 gets its inbound link from g1. *)
Lemma inbound_link_source_fixed_at_construction_witness :
  JsNumber.gt (JsNumber.parseFloat (monthlyIncomingFlowRate fundedByG1)) JsNumber.zero = true
  ∧ inboundLinks (nodesBeforeFilter ∅ ([g1] ++ fundedByG1 :: [])) fundedByG1
    = [ {| source := "g1"; target := id fundedByG1;
           value := JsNumber.parseFloat (monthlyIncomingFlowRate fundedByG1) |} ].
Proof.
  assert (JsNumber.gt (JsNumber.parseFloat (monthlyIncomingFlowRate fundedByG1))
            JsNumber.zero = true) as Hpos by (vm_compute; reflexivity).
  split; [done|].
  destruct (inbound_link_source_fixed_at_construction ∅ [g1] fundedByG1 [] Hpos)
    as (sourceId & Hinbound & Hupstream & _).
  rewrite Hinbound. f_equal. f_equal.
  apply Hupstream; [reflexivity | discriminate | vm_compute; reflexivity].
Defined.

(** C6, counterexample: the upstream flowId is the empty string, which is
    not null and is the id of a node of the map, yet the inbound link leaves
    the funding source: the empty string is falsy. *)
Lemma inbound_link_ignores_empty_upstream_id :
  flowId fundedByEmpty = Some ""
  ∧ has "" (nodesBeforeFilter ∅ [namedEmpty; fundedByEmpty]) = true
  ∧ JsNumber.gt (JsNumber.parseFloat (monthlyIncomingFlowRate fundedByEmpty))
      JsNumber.zero = true
  ∧ inboundLinks (nodesBeforeFilter ∅ [namedEmpty; fundedByEmpty]) fundedByEmpty
    = [ {| source := FUNDING_SOURCE_ID; target := "g2"; value := JsNumber.of_Z 5 |} ]
  ∧ links (buildGraph ∅ [namedEmpty; fundedByEmpty])
    = [ {| source := FUNDING_SOURCE_ID; target := "g2"; value := JsNumber.of_Z 5 |} ]
  ∧ FUNDING_SOURCE_ID ≠ "".
Proof. split_and!; try (vm_compute; reflexivity). discriminate. Qed.
End LinkSamples.

(** * Rates that are not numbers *)

Section UnparsableRates.
Import JsMap Samples.

Variable recipientProfiles : gmap string NeynarUserProfile.

Lemma strictEq_NaN (y : JsNumber.number) (x : JsNumber.number) :
  JsNumber.isNaN x = true → JsNumber.strictEq x y = false.
Proof. by destruct x. Qed.

Lemma gt_NaN (y : JsNumber.number) (x : JsNumber.number) :
  JsNumber.isNaN x = true → JsNumber.gt x y = false.
Proof. destruct x; try done. by destruct y. Qed.

(** C1, as the code has it: a grant whose incoming rate is no number pushes
    no link to a recipient; a grant whose outgoing rate is no number is not
    terminal, whatever its recipient: the recipient loop leaves the map as
    it is for it and it pushes no link to a recipient.  The builder returns
    a graph on every non-empty input. *)
Theorem unparsable_rates_give_no_recipient_link
    (nodesMap : JsMap.t LocalSankeyNode) (item : GrantItem) :
  (JsNumber.isNaN (JsNumber.parseFloat (monthlyIncomingFlowRate item)) = true →
   recipientLinks nodesMap item = [])
  ∧ (JsNumber.isNaN (JsNumber.parseFloat (monthlyOutgoingFlowRate item)) = true →
     isTerminal item = false
     ∧ addRecipientNode recipientProfiles nodesMap item = nodesMap
     ∧ recipientLinks nodesMap item = [])
  ∧ (∀ pre post, renderedGraph recipientProfiles (pre ++ item :: post)
                 = Some (buildGraph recipientProfiles (pre ++ item :: post))).
Proof.
  split_and!.
  - intros Hnan. unfold recipientLinks.
    destruct (isTerminal item); [|done]. by rewrite (gt_NaN _ _ Hnan).
  - intros Hnan.
    assert (isTerminal item = false) as Hterm
      by (unfold isTerminal; by rewrite (strictEq_NaN _ _ Hnan)).
    unfold addRecipientNode, recipientLinks. by rewrite Hterm.
  - intros pre post. by destruct pre.
Qed.
End UnparsableRates.

(** C1, witness: g1 with the rates replaced by the text abc. *)
Lemma unparsable_rates_give_no_recipient_link_witness :
  JsNumber.isNaN (JsNumber.parseFloat (monthlyIncomingFlowRate Samples.nanIncoming)) = true
  ∧ recipientLinks (nodesBeforeFilter ∅ [Samples.nanIncoming]) Samples.nanIncoming = []
  ∧ JsNumber.isNaN (JsNumber.parseFloat (monthlyOutgoingFlowRate Samples.nanOutgoing)) = true
  ∧ isTerminal Samples.nanOutgoing = false.
Proof.
  assert (JsNumber.isNaN (JsNumber.parseFloat (monthlyIncomingFlowRate Samples.nanIncoming))
          = true) as Hin by (vm_compute; reflexivity).
  assert (JsNumber.isNaN (JsNumber.parseFloat (monthlyOutgoingFlowRate Samples.nanOutgoing))
          = true) as Hout by (vm_compute; reflexivity).
  split_and!; [done | | done |].
  - exact (proj1 (unparsable_rates_give_no_recipient_link ∅
                    (nodesBeforeFilter ∅ [Samples.nanIncoming]) Samples.nanIncoming) Hin).
  - exact (proj1 (proj1 (proj2 (unparsable_rates_give_no_recipient_link ∅
                                  JsMap.empty Samples.nanOutgoing)) Hout)).
Defined.

(** C1, counterexample: with an outgoing rate that is no number and a
    recipient, the grant is not terminal and the graph has no recipient node;
    with an incoming rate that is no number, the first link loop still pushes
    a link into the grant, of value NaN, which reaches the graph. *)
Lemma unparsable_rates_not_read_as_zero :
  JsNumber.isNaN (JsNumber.parseFloat (monthlyOutgoingFlowRate Samples.nanOutgoing)) = true
  ∧ recipient Samples.nanOutgoing ≠ ""
  ∧ isTerminal Samples.nanOutgoing = false
  ∧ nodeId <$> nodes (buildGraph ∅ [Samples.nanOutgoing]) = [ FUNDING_SOURCE_ID; "g1" ]
  ∧ JsNumber.isNaN (JsNumber.parseFloat (monthlyIncomingFlowRate Samples.nanIncoming)) = true
  ∧ inboundLinks (nodesBeforeFilter ∅ [Samples.nanIncoming]) Samples.nanIncoming
    = [ {| source := FUNDING_SOURCE_ID; target := "g1"; value := JsNumber.NaN |} ]
  ∧ links (buildGraph ∅ [Samples.nanIncoming])
    = [ {| source := FUNDING_SOURCE_ID; target := "g1"; value := JsNumber.NaN |} ].
Proof. split_and!; try (vm_compute; reflexivity). vm_compute. discriminate. Qed.

(** * First recipient wins, last grant wins *)

Section FirstOccurrence.
Import JsMap JsMapFacts.

Variable recipientProfiles : gmap string NeynarUserProfile.

Implicit Types (item : GrantItem) (items pre post : list GrantItem).
Implicit Types (m : JsMap.t LocalSankeyNode) (k : string).



End FirstOccurrence.


(** Two grants with the id g1 and the recipient 0xabc: the grant node is the
    second grant's, the recipient node is the one created for the first, and
    each grant pushes its own pair of links. *)
Example repeated_id_and_recipient :
  nodes (buildGraph ∅ [Samples.g1; Samples.g1_again])
  = [ fundingSourceNode; grantNode Samples.g1_again; recipientNode ∅ Samples.g1 ]
  ∧ (λ link, (source link, target link)) <$> links (buildGraph ∅ [Samples.g1; Samples.g1_again])
    = [ (FUNDING_SOURCE_ID, "g1"); (FUNDING_SOURCE_ID, "g1");
        ("g1", "recipient_0xabc"); ("g1", "recipient_0xabc") ].
Proof. split; vm_compute; reflexivity. Qed.

(** * Further properties of the built graph *)

Section GraphShape.
Import JsMap JsMapFacts.

Variable recipientProfiles : gmap string NeynarUserProfile.

Implicit Types (item : GrantItem) (items : list GrantItem).
Implicit Types (node : LocalSankeyNode) (link : LocalSankeyLink) (k : string).

Lemma has_filtered_node items k :
  has k (filteredNodesMap recipientProfiles items) = true →
  ∃ node, node ∈ nodes (buildGraph recipientProfiles items) ∧ nodeId node = k.
Proof.
  unfold has. destruct (get k _) as [node|] eqn:Hnode; [|done]. intros _.
  pose proof (filteredNodesMap_get _ _ _ _ Hnode) as Hid.
  apply nodesBeforeFilter_origin, nodeOrigin_nodeId in Hid.
  exists node. split; [|done]. apply elem_of_nodes. by rewrite Hid.
Qed.

(** X1. Every node of the graph is the synthetic funding source, the node of
    an input grant under that grant's id, or the recipient node of a terminal
    input grant under the prefix followed by that grant's recipient. *)
Theorem graph_nodes_come_from_input items node :
  node ∈ nodes (buildGraph recipientProfiles items) →
  (node = fundingSourceNode ∧ nodeId node = FUNDING_SOURCE_ID)
  ∨ (∃ item, item ∈ items ∧ node = grantNode item ∧ nodeId node = id item)
  ∨ (∃ item, item ∈ items ∧ isTerminal item = true
             ∧ node = recipientNode recipientProfiles item
             ∧ nodeId node = RECIPIENT_PREFIX +:+ recipient item).
Proof.
  intros Hnode%nodes_origin.
  inversion Hnode as [Hk Hv | item Hin Hk Hv | item Hin Hterm Hk Hv].
  - by left.
  - right. left. by exists item.
  - right. right. by exists item.
Qed.

(** X2. Both ends of every link of the graph are ids of nodes of the graph. *)
Theorem graph_links_join_graph_nodes items link :
  link ∈ links (buildGraph recipientProfiles items) →
  (∃ node, node ∈ nodes (buildGraph recipientProfiles items) ∧ nodeId node = source link)
  ∧ (∃ node, node ∈ nodes (buildGraph recipientProfiles items) ∧ nodeId node = target link).
Proof.
  intros (_ & Hs & Ht)%links_elem. split; by apply has_filtered_node.
Qed.

Lemma inboundLinks_value nodesMap item link :
  link ∈ inboundLinks nodesMap item →
  JsNumber.le (JsNumber.parseFloat (monthlyIncomingFlowRate item)) JsNumber.zero = false.
Proof.
  unfold inboundLinks. destruct (JsNumber.le _ _); [|done]. by intros ?%elem_of_nil.
Qed.

Lemma recipientLinks_value nodesMap item link :
  link ∈ recipientLinks nodesMap item →
  isTerminal item = true
  ∧ JsNumber.gt (JsNumber.parseFloat (monthlyIncomingFlowRate item)) JsNumber.zero = true.
Proof.
  unfold recipientLinks. destruct (isTerminal item); [|by intros ?%elem_of_nil].
  destruct (JsNumber.gt _ _); [done|]. by intros ?%elem_of_nil.
Qed.

(** X3. Every link of the graph was pushed for an input grant and carries
    that grant's parsed incoming rate: either it enters the grant's node,
    from the source chosen when it was built, and the rate is not at most
    zero; or it goes from the grant's node to its recipient node, the grant
    is terminal and the rate is positive. *)
Theorem graph_links_come_from_grants items link :
  link ∈ links (buildGraph recipientProfiles items) →
  ∃ item, item ∈ items
    ∧ value link = JsNumber.parseFloat (monthlyIncomingFlowRate item)
    ∧ ((source link = actualSourceId (nodesBeforeFilter recipientProfiles items) item
        ∧ target link = id item
        ∧ JsNumber.le (value link) JsNumber.zero = false)
       ∨ (source link = id item
          ∧ target link = RECIPIENT_PREFIX +:+ recipient item
          ∧ isTerminal item = true
          ∧ JsNumber.gt (value link) JsNumber.zero = true)).
Proof.
  intros (Hlink & _)%links_elem.
  rewrite linksBeforeFilter_eq, elem_of_app, !elem_of_flat_map in Hlink.
  destruct Hlink as [(x & Hx & Hl) | (x & Hx & Hl)]; exists x; (split; [done|]).
  - pose proof (inboundLinks_value _ _ _ Hl) as Hval.
    apply inboundLinks_elem in Hl as [-> _]. simpl. split; [done|]. by left.
  - pose proof (recipientLinks_value _ _ _ Hl) as [Hterm Hval].
    apply recipientLinks_elem in Hl as [-> _]. simpl. split; [done|]. by right.
Qed.

(** An end of a link built before the filter is kept by the funding source
    check and by the filter, but for the reserved id when no link leaves it. *)
Lemma link_end_kept items link k :
  link ∈ linksBeforeFilter recipientProfiles items →
  incident k link →
  (k = FUNDING_SOURCE_ID →
   ∃ link', link' ∈ linksBeforeFilter recipientProfiles items
            ∧ source link' = FUNDING_SOURCE_ID) →
  has k (filteredNodesMap recipientProfiles items) = true.
Proof.
  intros Hlink Hinc Hfunding.
  apply connectivityFilter_has; [apply nodesAfterFundingCheck_uniqueKeys|].
  split; [|by exists link].
  destruct (decide (k = FUNDING_SOURCE_ID)) as [->|Hne].
  - by apply nodesAfterFundingCheck_has_funding, Hfunding.
  - rewrite nodesAfterFundingCheck_has_other by done.
    destruct (linksBeforeFilter_closed recipientProfiles items link Hlink) as [Hs Ht].
    by destruct Hinc as [<- | <-].
Qed.

(** X4. A terminal grant with a positive incoming rate is always drawn: the
    link into its node and the link from its node to its recipient node are
    links of the graph, whatever else the input holds. *)
Theorem terminal_grant_links_reach_graph items item :
  item ∈ items → isTerminal item = true →
  JsNumber.gt (JsNumber.parseFloat (monthlyIncomingFlowRate item)) JsNumber.zero = true →
  {| source := actualSourceId (nodesBeforeFilter recipientProfiles items) item;
     target := id item;
     value := JsNumber.parseFloat (monthlyIncomingFlowRate item) |}
    ∈ links (buildGraph recipientProfiles items)
  ∧ {| source := id item; target := RECIPIENT_PREFIX +:+ recipient item;
       value := JsNumber.parseFloat (monthlyIncomingFlowRate item) |}
      ∈ links (buildGraph recipientProfiles items).
Proof.
  intros Hin Hterm Hpos.
  set (inbound := {| source := actualSourceId _ item; target := id item |}).
  set (outbound := {| source := id item; target := RECIPIENT_PREFIX +:+ recipient item |}).
  assert (inbound ∈ linksBeforeFilter recipientProfiles items) as Hinbound.
  { rewrite linksBeforeFilter_eq, elem_of_app, !elem_of_flat_map. left.
    exists item. split; [done|].
    rewrite inboundLinks_positive; [apply list_elem_of_here | done |].
    by apply nodesBeforeFilter_has_grant. }
  assert (outbound ∈ linksBeforeFilter recipientProfiles items) as Houtbound.
  { rewrite linksBeforeFilter_eq, elem_of_app, !elem_of_flat_map. right.
    exists item. split; [done|].
    rewrite recipientLinks_positive; [apply list_elem_of_here | done | done |].
    by apply nodesBeforeFilter_has_recipient. }
  assert (has (id item) (filteredNodesMap recipientProfiles items) = true) as Hid.
  { apply (link_end_kept items outbound); [done | by left |].
    intros Heq. exists outbound. by split. }
  split; apply links_elem; (split; [done|]); split; try done.
  - apply (link_end_kept items inbound); [done | by left |].
    intros Heq. exists inbound. by split.
  - apply (link_end_kept items outbound); [done | by right |].
    intros Heq. by apply recipientId_not_funding_source in Heq.
Qed.

(** X5. When no grant carries the reserved id, the filter drops no link: the
    links of the graph are the links built, in the order built, and every
    node of the graph is an end of a link of the graph. *)
Theorem without_reserved_id_no_link_dropped items :
  (∀ item, item ∈ items → id item ≠ FUNDING_SOURCE_ID) →
  links (buildGraph recipientProfiles items) = linksBeforeFilter recipientProfiles items
  ∧ (∀ node, node ∈ nodes (buildGraph recipientProfiles items) →
       ∃ link, link ∈ links (buildGraph recipientProfiles items)
               ∧ incident (nodeId node) link).
Proof.
  intros Hids.
  assert (links (buildGraph recipientProfiles items)
          = linksBeforeFilter recipientProfiles items) as Hlinks.
  { rewrite buildGraph_links. apply connectivityFilter_links_closed.
    - apply nodesAfterFundingCheck_uniqueKeys.
    - by apply built_state_closed. }
  split; [done|]. intros node Hnode%elem_of_nodes. rewrite Hlinks.
  assert (has (nodeId node) (filteredNodesMap recipientProfiles items) = true) as Hhas
    by (unfold has; by rewrite Hnode).
  apply connectivityFilter_has in Hhas as [_ Hinc];
    [done | apply nodesAfterFundingCheck_uniqueKeys].
Qed.
End GraphShape.

(** * The profile mapping and the graph *)

Section ProfileLookup.
Import JsMap JsMapFacts.

Implicit Types (item : GrantItem) (items : list GrantItem).
Implicit Types (m : JsMap.t LocalSankeyNode) (k : string).
Implicit Types (p : gmap string NeynarUserProfile).

Lemma lowerChar_idem (c : ascii) :
  JsString.lowerChar (JsString.lowerChar c) = JsString.lowerChar c.
Proof. destruct c as [[] [] [] [] [] [] [] []]; vm_compute; reflexivity. Qed.

Lemma toLowerCase_idem (s : string) :
  JsString.toLowerCase (JsString.toLowerCase s) = JsString.toLowerCase s.
Proof. induction s as [|c s IH]; simpl; [done|]. by rewrite lowerChar_idem, IH. Qed.

Lemma elem_of_add (x y : string) (s : JsSet.t) :
  x ∈ JsSet.add y s ↔ x = y ∨ x ∈ s.
Proof.
  unfold JsSet.add, JsSet.has. case_bool_decide as Hy.
  - split; [by right|]. by intros [->|].
  - rewrite elem_of_app, list_elem_of_singleton. tauto.
Qed.

Lemma NoDup_add (y : string) (s : JsSet.t) : NoDup s → NoDup (JsSet.add y s).
Proof.
  intros Hs. unfold JsSet.add, JsSet.has. case_bool_decide as Hy; [done|].
  apply NoDup_app. split_and!; [done | | apply NoDup_singleton].
  by intros x Hx ->%list_elem_of_singleton.
Qed.

Lemma uniqueRecipients_snoc items item :
  uniqueRecipients (items ++ [item])
  = if isTerminal item
    then JsSet.add (JsString.toLowerCase (recipient item)) (uniqueRecipients items)
    else uniqueRecipients items.
Proof.
  unfold uniqueRecipients, isTerminal. rewrite foldl_app. simpl.
  by rewrite andb_comm.
Qed.

Lemma elem_of_uniqueRecipients items (a : string) :
  a ∈ uniqueRecipients items
  ↔ ∃ item, item ∈ items ∧ isTerminal item = true
            ∧ a = JsString.toLowerCase (recipient item).
Proof.
  revert a. induction items as [|x items IH] using rev_ind; intros a.
  - split; [by intros ?%elem_of_nil | by intros (? & ?%elem_of_nil & _)].
  - rewrite uniqueRecipients_snoc. destruct (isTerminal x) eqn:Hterm.
    + rewrite elem_of_add, IH. split.
      * intros [-> | (y & Hy & ? & ?)].
        { exists x. split; [|done]. apply elem_of_app. right. apply list_elem_of_here. }
        exists y. split; [|done]. apply elem_of_app. by left.
      * intros (y & [Hy | ->%list_elem_of_singleton]%elem_of_app & ? & ?);
          [right; by exists y | by left].
    + rewrite IH. split.
      * intros (y & Hy & ? & ?). exists y. split; [|done]. apply elem_of_app. by left.
      * intros (y & [Hy | ->%list_elem_of_singleton]%elem_of_app & Hy' & ?);
          [by exists y | congruence].
Qed.

Lemma uniqueRecipients_NoDup items : NoDup (uniqueRecipients items).
Proof.
  induction items as [|x items IH] using rev_ind; [apply NoDup_nil_2|].
  rewrite uniqueRecipients_snoc. destruct (isTerminal x); [by apply NoDup_add | done].
Qed.

Lemma uniqueRecipients_nil items :
  uniqueRecipients items = [] ↔ ∀ item, item ∈ items → isTerminal item = false.
Proof.
  split.
  - intros Hnil item Hin. destruct (isTerminal item) eqn:Hterm; [|done].
    assert (JsString.toLowerCase (recipient item) ∈ uniqueRecipients items) as Ha
      by (apply elem_of_uniqueRecipients; by exists item).
    rewrite Hnil in Ha. by apply elem_of_nil in Ha.
  - intros Hnone.
    destruct (decide (uniqueRecipients items = [])) as [|Hne]; [done|].
    exfalso. destruct (uniqueRecipients items) as [|a l] eqn:E; [done|].
    assert (a ∈ uniqueRecipients items) as Ha by (rewrite E; apply list_elem_of_here).
    apply elem_of_uniqueRecipients in Ha as (item & Hin & Hterm & _).
    rewrite (Hnone item Hin) in Hterm. done.
Qed.

(** X6. The addresses asked for are exactly the lower-cased recipients of
    the terminal grants, each once, and lower-casing leaves each as it is. *)
Theorem requested_addresses_are_terminal_recipients items :
  (∀ a, a ∈ uniqueRecipients items
        ↔ ∃ item, item ∈ items ∧ isTerminal item = true
                  ∧ a = JsString.toLowerCase (recipient item))
  ∧ NoDup (uniqueRecipients items)
  ∧ (∀ a, a ∈ uniqueRecipients items → JsString.toLowerCase a = a).
Proof.
  split_and!.
  - intros a. apply elem_of_uniqueRecipients.
  - apply uniqueRecipients_NoDup.
  - intros a (item & _ & _ & ->)%elem_of_uniqueRecipients. apply toLowerCase_idem.
Qed.
End ProfileLookup.

Section ProfileDependence.
Import JsMap JsMapFacts.

Implicit Types (item : GrantItem) (items : list GrantItem).
Implicit Types (m : JsMap.t LocalSankeyNode) (k : string).
Implicit Types (p : gmap string NeynarUserProfile).

Lemma recipientNode_agree p p' item :
  p !! JsString.toLowerCase (recipient item) = p' !! JsString.toLowerCase (recipient item) →
  recipientNode p item = recipientNode p' item.
Proof. intros Heq. unfold recipientNode. by rewrite Heq. Qed.

Lemma addRecipientNodes_agree p p' items m :
  (∀ item, item ∈ items → isTerminal item = true →
           recipientNode p item = recipientNode p' item) →
  addRecipientNodes p items m = addRecipientNodes p' items m.
Proof.
  induction items as [|x items IH] using rev_ind; [done|].
  intros Hagree. rewrite !addRecipientNodes_snoc, IH.
  - unfold addRecipientNode. destruct (isTerminal x) eqn:Hterm; [|done].
    rewrite (Hagree x); [done | | done]. apply elem_of_app. right. apply list_elem_of_here.
  - intros y Hy. apply Hagree, elem_of_app. by left.
Qed.

(** X7. The graph reads the profile mapping only at the addresses asked
    for: two mappings that agree on them give the same graph. *)
Theorem graph_reads_only_requested_profiles p p' items :
  (∀ a, a ∈ uniqueRecipients items → p !! a = p' !! a) →
  buildGraph p items = buildGraph p' items.
Proof.
  intros Hagree.
  assert (nodesBeforeFilter p items = nodesBeforeFilter p' items) as Hnodes.
  { unfold nodesBeforeFilter. apply addRecipientNodes_agree.
    intros item Hin Hterm. apply recipientNode_agree, Hagree.
    apply elem_of_uniqueRecipients. by exists item. }
  unfold buildGraph, linksBeforeFilter. by rewrite Hnodes.
Qed.

(** ** What does not depend on the profiles at all *)

Lemma has_same_keys m m' k : keys m = keys m' → has k m = has k m'.
Proof.
  intros Hkeys. pose proof (has_keys k m) as H1. pose proof (has_keys k m') as H2.
  rewrite Hkeys in H1.
  destruct (has k m), (has k m'); try done.
  - symmetry. by apply H2, H1.
  - by apply H1, H2.
Qed.

Lemma addRecipientNodes_keys p p' items m m' :
  keys m = keys m' →
  keys (addRecipientNodes p items m) = keys (addRecipientNodes p' items m').
Proof.
  intros Hkeys. induction items as [|x items IH] using rev_ind; [done|].
  rewrite !addRecipientNodes_snoc. unfold addRecipientNode.
  destruct (isTerminal x); [|done].
  rewrite (has_same_keys _ _ (recipientId x) IH).
  destruct (has (recipientId x) (addRecipientNodes p' items m')) eqn:Hhas; [done|].
  simpl. rewrite !keys_set, (has_same_keys _ _ (recipientId x) IH), Hhas.
  by rewrite IH.
Qed.

Lemma nodesBeforeFilter_keys p p' items :
  keys (nodesBeforeFilter p items) = keys (nodesBeforeFilter p' items).
Proof. unfold nodesBeforeFilter. by apply addRecipientNodes_keys. Qed.

Lemma inboundLinks_same_keys m m' item :
  keys m = keys m' → inboundLinks m item = inboundLinks m' item.
Proof.
  intros Hkeys. unfold inboundLinks, actualSourceId.
  rewrite (has_same_keys m m' (id item) Hkeys).
  destruct (flowId item) as [f|]; [|done].
  by rewrite (has_same_keys m m' f Hkeys).
Qed.

Lemma recipientLinks_same_keys m m' item :
  keys m = keys m' → recipientLinks m item = recipientLinks m' item.
Proof.
  intros Hkeys. unfold recipientLinks.
  by rewrite (has_same_keys m m' (recipientId item) Hkeys).
Qed.

Lemma linksBeforeFilter_profiles p p' items :
  linksBeforeFilter p items = linksBeforeFilter p' items.
Proof.
  rewrite !linksBeforeFilter_eq.
  pose proof (nodesBeforeFilter_keys p p' items) as Hkeys.
  f_equal; apply flat_map_ext; intros item;
    [by apply inboundLinks_same_keys | by apply recipientLinks_same_keys].
Qed.

Lemma keys_delete k m :
  keys (delete k m) = List.filter (fun k' => negb (bool_decide (k' = k))) (keys m).
Proof.
  rewrite delete_filter.
  exact (keys_filter (fun k' : string => negb (bool_decide (k' = k))) m).
Qed.

Lemma nodesAfterFundingCheck_keys p p' items :
  keys (nodesAfterFundingCheck p items) = keys (nodesAfterFundingCheck p' items).
Proof.
  unfold nodesAfterFundingCheck, dropUnusedFundingSource.
  rewrite (linksBeforeFilter_profiles p p' items).
  destruct (negb _); [rewrite !keys_delete|]; by rewrite (nodesBeforeFilter_keys p p').
Qed.

Lemma filteredNodesMap_keys p p' items :
  keys (filteredNodesMap p items) = keys (filteredNodesMap p' items).
Proof.
  unfold filteredNodesMap, filteredState.
  rewrite !connectivityFilter_nodes by apply nodesAfterFundingCheck_uniqueKeys.
  rewrite (linksBeforeFilter_profiles p p' items).
  etrans;
    [exact (keys_filter (fun k : string =>
                           bool_decide (k ∈ nodesWithLinks (linksBeforeFilter p' items)))
              (nodesAfterFundingCheck p items))|].
  symmetry. etrans;
    [exact (keys_filter (fun k : string =>
                           bool_decide (k ∈ nodesWithLinks (linksBeforeFilter p' items)))
              (nodesAfterFundingCheck p' items))|].
  by rewrite (nodesAfterFundingCheck_keys p p').
Qed.

(** X8. The profile mapping changes nothing but recipient nodes: whatever
    the two mappings, the links of the graph are the same, the node ids are
    the same in the same order, and a node that is not a recipient node is
    in the one graph when it is in the other. *)
Theorem profiles_change_recipient_nodes_only p p' items :
  links (buildGraph p items) = links (buildGraph p' items)
  ∧ nodeId <$> nodes (buildGraph p items) = nodeId <$> nodes (buildGraph p' items)
  ∧ (∀ node, node ∈ nodes (buildGraph p items) → isRecipient node ≠ Some true →
             node ∈ nodes (buildGraph p' items)).
Proof.
  pose proof (filteredNodesMap_keys p p' items) as Hkeys.
  split_and!.
  - rewrite !buildGraph_links.
    change (List.filter (fun link => has (source link) (filteredNodesMap p items)
                                     && has (target link) (filteredNodesMap p items))
              (linksBeforeFilter p items)
            = List.filter (fun link => has (source link) (filteredNodesMap p' items)
                                       && has (target link) (filteredNodesMap p' items))
                (linksBeforeFilter p' items)).
    rewrite (linksBeforeFilter_profiles p p' items).
    apply filter_ext. intros link. by rewrite !(has_same_keys _ _ _ Hkeys).
  - by rewrite !nodeIds_keys.
  - intros node Hnode Hkind. apply elem_of_nodes in Hnode. apply elem_of_nodes.
    assert (has (nodeId node) (filteredNodesMap p' items) = true) as Hhas.
    { rewrite <- (has_same_keys _ _ _ Hkeys). unfold has. by rewrite Hnode. }
    unfold has in Hhas.
    destruct (get (nodeId node) (filteredNodesMap p' items)) as [node'|] eqn:Hnode';
      [|done].
    f_equal.
    apply filteredNodesMap_get in Hnode, Hnode'. unfold nodesBeforeFilter in Hnode, Hnode'.
    apply addRecipientNodes_get in Hnode as [Hstart | (item & _ & _ & _ & ->)];
      [|by destruct Hkind].
    rewrite (addRecipientNodes_get_kept p' _ _ _ _ Hstart) in Hnode'.
    by injection Hnode'.
Qed.
End ProfileDependence.

(** * The recipient profile fetcher *)

Section ProfileFetcher.
Import JsMap JsMapFacts.

Implicit Types (item : GrantItem) (items : list GrantItem).
Implicit Types (p : gmap string NeynarUserProfile) (data : NeynarResponse).
Implicit Types (user : NeynarUserProfile) (k : string).

Lemma profilesRequestUrl_None items :
  profilesRequestUrl items = None ↔ uniqueRecipients items = [].
Proof.
  unfold profilesRequestUrl, JsSet.size. by destruct (uniqueRecipients items).
Qed.

(** X9. No request is made exactly when no grant is terminal; then the
    profile mapping stays as it was whatever would have come back, and the
    graph has no recipient node. *)
Theorem no_terminal_grant_no_profile_request items :
  (profilesRequestUrl items = None ↔ ∀ item, item ∈ items → isTerminal item = false)
  ∧ (profilesRequestUrl items = None →
     ∀ reply p,
       fetchRecipientProfiles items reply p = p
       ∧ ∀ node, node ∈ nodes (buildGraph p items) → isRecipient node ≠ Some true).
Proof.
  split.
  - rewrite profilesRequestUrl_None. apply uniqueRecipients_nil.
  - intros Hnone%profilesRequestUrl_None reply p. split.
    + unfold fetchRecipientProfiles. by rewrite Hnone.
    + intros node Hnode%nodes_origin Hkind.
      inversion Hnode as [Hk Hv | item Hin Hk Hv | item Hin Hterm Hk Hv].
      * rewrite <- Hv in Hkind. discriminate.
      * rewrite <- Hv in Hkind. discriminate.
      * by rewrite (proj1 (uniqueRecipients_nil items) Hnone item Hin) in Hterm.
Qed.

Lemma processResponse_snoc data (address : string) (users : list NeynarUserProfile) :
  processResponse (data ++ [(address, users)])
  = match users with
    | user :: _ => <[ JsString.toLowerCase address := user ]> (processResponse data)
    | [] => processResponse data
    end.
Proof. unfold processResponse. by rewrite foldl_app. Qed.

Lemma decides_snoc data (address : string) (users : list NeynarUserProfile) k user :
  decides (data ++ [(address, users)]) k user
  ↔ (JsString.toLowerCase address = k ∧ ∃ others, users = user :: others)
    ∨ ((JsString.toLowerCase address = k → users = []) ∧ decides data k user).
Proof.
  split.
  - intros (before & address0 & others & after & Hdata & Hk & Hafter).
    destruct after as [|last after _] using rev_ind.
    + apply app_inj_tail in Hdata as [_ [= -> ->]]. left. eauto.
    + rewrite app_comm_cons, app_assoc in Hdata.
      apply app_inj_tail in Hdata as [-> <-]. right. split.
      * apply Hafter. apply elem_of_app. right. apply list_elem_of_here.
      * exists before, address0, others, after. split_and!; [done..|].
        intros a us Hin. apply Hafter, elem_of_app. by left.
  - intros [[Hk [others ->]] | [Hlast (before & address0 & others & after & -> & Hk & Hafter)]].
    + exists data, address, others, []. split_and!; [done..|].
      by intros ? ? ?%elem_of_nil.
    + exists before, address0, others, (after ++ [(address, users)]).
      split_and!; [by rewrite <- app_assoc | done |].
      intros a us [Hin | [= -> ->]%list_elem_of_singleton]%elem_of_app; [by eapply Hafter | done].
Qed.

Lemma processResponse_lookup data k user :
  processResponse data !! k = Some user ↔ decides data k user.
Proof.
  revert user. induction data as [|[address users] data IH] using rev_ind; intros user.
  - unfold processResponse. simpl. rewrite lookup_empty. split; [done|].
    intros (before & ? & ? & ? & Hdata & _). by destruct before.
  - rewrite processResponse_snoc, decides_snoc. destruct users as [|first others].
    + rewrite IH. split; [by right | ]. by intros [[_ [? ?]] | [_ ?]].
    + destruct (decide (JsString.toLowerCase address = k)) as [Hk|Hk].
      * rewrite Hk, lookup_insert_eq. split.
        { intros [= ->]. left. eauto. }
        intros [[_ [? [= -> _]]] | [Habs _]]; [done | by specialize (Habs eq_refl)].
      * rewrite lookup_insert_ne by done. rewrite IH. split; [by right|].
        by intros [[? _] | [_ ?]].
Qed.


(** X11. From response to label: when the response holds users for an
    address that equals a terminal grant's recipient up to letter case (and
    no later entry with users for it), the recipient node built with the
    fetched mapping is named after the first of these users and opens that
    user's page. *)
Theorem fetched_profile_labels_recipient items item data p user :
  item ∈ items → isTerminal item = true →
  decides data (JsString.toLowerCase (recipient item)) user →
  let fetched := fetchRecipientProfiles items (ProfilesBody data) p in
  name (recipientNode fetched item)
  = display_name user +:+ " (" +:+ profile_username user +:+ ")"
  ∧ node_title (recipientNode fetched item) = Some ("Recipient: " +:+ display_name user)
  ∧ username (recipientNode fetched item) = Some (profile_username user)
  ∧ clickUrl (recipientNode fetched item)
    = Some ("https://warpcast.com/" +:+ profile_username user).
Proof.
  intros Hin Hterm Hdecides fetched.
  assert (fetched !! JsString.toLowerCase (recipient item) = Some user) as Hlookup.
  { unfold fetched, fetchRecipientProfiles, JsSet.size.
    destruct (uniqueRecipients items) as [|a l] eqn:E.
    - by rewrite (proj1 (uniqueRecipients_nil items) E item Hin) in Hterm.
    - by apply processResponse_lookup. }
  unfold clickUrl, recipientNode. simpl. by rewrite Hlookup.
Qed.
End ProfileFetcher.

(** * Click targets *)

Section ClickTargets.

Variable recipientProfiles : gmap string NeynarUserProfile.

Implicit Types (d node : LocalSankeyNode) (items : list GrantItem).

(** X12. The three places that react to a click agree on every node: the
    overlay rectangle opens what the icon and the label open, it exists
    exactly when they open something, the label shows the pointer cursor in
    exactly that case, and the URL opened is never empty. *)
Theorem click_targets_agree d :
  overlayUrl d = clickUrl d
  ∧ (labelCursor d = "pointer" ↔ is_Some (clickUrl d))
  ∧ (∀ url, clickUrl d = Some url → url ≠ "").
Proof.
  unfold overlayUrl, clickUrl, labelCursor.
  destruct (isRecipient d) as [[]|], (node_isFlow d) as [[]|],
    (profileUrl d) as [[|? ?]|], (flowUrl d) as [[|? ?]|], (itemUrl d) as [[|? ?]|];
    simpl; split_and!; try done;
    try (split; [by eauto | done]);
    try (split; [done | by intros [? ?]]);
    try (by intros ? [= <-]).
Qed.

End ClickTargets.

(** * The page *)

Section Page.

(** X14. Once the request for the grants has come to an end the page shows
    exactly one block and never the loading one: the diagram for a body with
    items, the empty notice for a body without, the status message for a
    response that is not ok, the message of a thrown error, and the fixed
    message for a thrown value that is no error.  A thrown error with an
    empty message shows the empty notice. *)
Theorem settled_page_shows_one_block (reply : App.GrantsReply) :
  App.render (App.fetchData reply App.initialState)
  = match reply with
    | App.Body [] => [ App.EmptyBlock ]
    | App.Body (item :: its) => [ App.DiagramBlock (item :: its) ]
    | App.NotOk status =>
        [ App.ErrorBlock ("API request failed with status "
                          +:+ NilZero.string_of_int (Z.to_int status)) ]
    | App.FetchRejected (App.ThrownError message)
    | App.BodyRejected (App.ThrownError message) =>
        match message with
        | "" => [ App.EmptyBlock ]
        | _ => [ App.ErrorBlock message ]
        end
    | App.FetchRejected App.ThrownOther
    | App.BodyRejected App.ThrownOther => [ App.ErrorBlock "An unknown error occurred" ]
    end.
Proof.
  destruct reply as [[[|? ?]|] | status | [[|? ?]|] | [|item its]]; reflexivity.
Qed.

(** X15. In whatever state the page is, the diagram is mounted only when
    loading is over and no error message is set, on the items of the state,
    which are not empty: the builder then returns a graph, its guard on an
    empty list never fires. *)
Theorem mounted_diagram_builds_graph (s : App.State) (its : list GrantItem)
    (recipientProfiles : gmap string NeynarUserProfile) :
  App.DiagramBlock its ∈ App.render s →
  App.loading s = false
  ∧ truthyText (App.error s) = false
  ∧ its = App.items s
  ∧ its ≠ []
  ∧ renderedGraph recipientProfiles its = Some (buildGraph recipientProfiles its).
Proof.
  unfold App.render.
  rewrite !elem_of_app. intros [Hin | [Hin | [Hin | Hin]]].
  - destruct (App.loading s); [|by apply elem_of_nil in Hin].
    by apply list_elem_of_singleton in Hin.
  - destruct (App.error s) as [message|]; [|by apply elem_of_nil in Hin].
    destruct (JsString.truthy message); [|by apply elem_of_nil in Hin].
    by apply list_elem_of_singleton in Hin.
  - destruct (App.loading s); [by apply elem_of_nil in Hin|].
    destruct (truthyText (App.error s)); [by apply elem_of_nil in Hin|].
    simpl in Hin. destruct (App.items s) as [|item rest] eqn:Hitems;
      [by apply elem_of_nil in Hin|].
    apply list_elem_of_singleton in Hin. injection Hin as ->. by split_and!.
  - destruct (_ && _); [|by apply elem_of_nil in Hin].
    by apply list_elem_of_singleton in Hin.
Qed.
End Page.

(** * Node order *)

Section NodeOrder.
Import JsMap JsMapFacts.

Variable recipientProfiles : gmap string NeynarUserProfile.

Implicit Types (item : GrantItem) (items : list GrantItem).
Implicit Types (m : JsMap.t LocalSankeyNode) (k : string).

Lemma keys_set_add k (v : LocalSankeyNode) m : keys (set k v m) = JsSet.add k (keys m).
Proof.
  rewrite keys_set. unfold JsSet.add, JsSet.has.
  destruct (has k m) eqn:Hhas.
  - by rewrite bool_decide_eq_true_2 by by apply has_keys.
  - by rewrite bool_decide_eq_false_2 by by apply has_false_keys.
Qed.

Lemma addGrantNodes_keys items m :
  keys (addGrantNodes items m)
  = foldl (fun acc k => JsSet.add k acc) (keys m) (id <$> items).
Proof.
  induction items as [|x items IH] using rev_ind; [done|].
  by rewrite addGrantNodes_snoc, keys_set_add, fmap_app, foldl_app, IH.
Qed.

Lemma addRecipientNodes_keys_order items m :
  keys (addRecipientNodes recipientProfiles items m)
  = foldl (fun acc k => JsSet.add k acc) (keys m)
      (recipientId <$> List.filter isTerminal items).
Proof.
  induction items as [|x items IH] using rev_ind; [done|].
  rewrite addRecipientNodes_snoc, List.filter_app, fmap_app, foldl_app, <- IH. simpl.
  unfold addRecipientNode. destruct (isTerminal x); [|done]. simpl.
  destruct (has (recipientId x) _) eqn:Hhas; simpl.
  - unfold JsSet.add, JsSet.has.
    by rewrite bool_decide_eq_true_2 by by apply has_keys.
  - apply keys_set_add.
Qed.

Lemma nodesAfterFundingCheck_keys_filter items :
  ∃ keep, keys (nodesAfterFundingCheck recipientProfiles items)
          = List.filter keep (keys (nodesBeforeFilter recipientProfiles items)).
Proof.
  unfold nodesAfterFundingCheck, dropUnusedFundingSource. destruct (negb _).
  - eexists. apply keys_delete.
  - exists (fun _ => true). symmetry. by apply List_filter_all.
Qed.

Lemma List_filter_filter {A} (f g : A -> bool) (l : list A) :
  List.filter f (List.filter g l) = List.filter (fun a => g a && f a) l.
Proof.
  induction l as [|a l IH]; simpl; [done|].
  destruct (g a); simpl; [|done]. destruct (f a); by rewrite IH.
Qed.

(** X16. Nodes come in insertion order: the ids of the nodes of the graph,
    in order, are a selection from the list that starts with the reserved
    id, goes on with the grant ids and ends with the recipient ids of the
    terminal grants, each id standing where it first occurs. *)
Theorem graph_nodes_in_insertion_order items :
  keys (nodesBeforeFilter recipientProfiles items)
  = foldl (fun acc k => JsSet.add k acc) []
      (FUNDING_SOURCE_ID :: (id <$> items)
         ++ (recipientId <$> List.filter isTerminal items))
  ∧ ∃ keep, nodeId <$> nodes (buildGraph recipientProfiles items)
            = List.filter keep (keys (nodesBeforeFilter recipientProfiles items)).
Proof.
  split.
  - unfold nodesBeforeFilter.
    rewrite addRecipientNodes_keys_order, addGrantNodes_keys.
    by rewrite app_comm_cons, foldl_app.
  - rewrite nodeIds_keys. unfold filteredNodesMap, filteredState.
    rewrite connectivityFilter_nodes by apply nodesAfterFundingCheck_uniqueKeys.
    destruct (nodesAfterFundingCheck_keys_filter items) as [keep Hkeep].
    eexists.
    etrans;
      [exact (keys_filter
                (fun k : string =>
                   bool_decide (k ∈ nodesWithLinks (linksBeforeFilter recipientProfiles items)))
                (nodesAfterFundingCheck recipientProfiles items))|].
    rewrite Hkeep. apply List_filter_filter.
Qed.
End NodeOrder.

(** * Height of the layout *)

Section LayoutHeight.
Import JsMap JsMapFacts.

Variable recipientProfiles : gmap string NeynarUserProfile.

Implicit Types (x y : JsNumber.number) (ls : list LocalSankeyLink).
Implicit Types (item : GrantItem) (items : list GrantItem).

Lemma add_NaN_l y : JsMath.add JsNumber.NaN y = JsNumber.NaN.
Proof. by destruct y. Qed.

Lemma add_NaN_r x : JsMath.add x JsNumber.NaN = JsNumber.NaN.
Proof. by destruct x. Qed.

Lemma totalValue_NaN_from ls :
  foldl (fun sum link => JsMath.add sum (value link)) JsNumber.NaN ls = JsNumber.NaN.
Proof. induction ls as [|l ls IH]; [done|]. cbn [foldl]. by rewrite add_NaN_l. Qed.

Lemma totalValue_NaN ls link :
  link ∈ ls → JsNumber.isNaN (value link) = true → totalValue ls = JsNumber.NaN.
Proof.
  intros (before & after & ->)%list_elem_of_split Hnan.
  unfold totalValue. rewrite foldl_app. cbn [foldl].
  destruct (value link); try done.
  rewrite add_NaN_r. apply totalValue_NaN_from.
Qed.

Lemma valueScaledHeight_NaN x ls :
  totalValue ls = JsNumber.NaN → valueScaledHeight x ls = JsNumber.NaN.
Proof.
  intros Htotal. unfold valueScaledHeight. rewrite Htotal.
  unfold JsMath.max, JsMath.min. simpl.
  by rewrite !orb_true_r.
Qed.

(** X17. A grant whose incoming rate is no number, and whose id is not the
    reserved one, spoils the height of the layout: its inbound link reaches
    the graph with the value NaN, the total of the link values is NaN and so
    is the height, whatever the size of the container. *)
Theorem unparsable_rate_makes_height_NaN items item innerHeight :
  item ∈ items →
  JsNumber.isNaN (JsNumber.parseFloat (monthlyIncomingFlowRate item)) = true →
  id item ≠ FUNDING_SOURCE_ID →
  {| source := actualSourceId (nodesBeforeFilter recipientProfiles items) item;
     target := id item; value := JsNumber.NaN |}
    ∈ links (buildGraph recipientProfiles items)
  ∧ totalValue (links (buildGraph recipientProfiles items)) = JsNumber.NaN
  ∧ valueScaledHeight innerHeight (links (buildGraph recipientProfiles items))
    = JsNumber.NaN.
Proof.
  intros Hin Hnan Hid.
  set (inbound := {| source := actualSourceId _ item; target := id item;
                     value := JsNumber.NaN |}).
  assert (inbound ∈ linksBeforeFilter recipientProfiles items) as Hbuilt.
  { rewrite linksBeforeFilter_eq, elem_of_app, !elem_of_flat_map. left.
    exists item. split; [done|]. unfold inboundLinks.
    rewrite (nodesBeforeFilter_has_grant recipientProfiles items item Hin).
    destruct (JsNumber.parseFloat (monthlyIncomingFlowRate item)); try done.
    apply list_elem_of_here. }
  assert (inbound ∈ links (buildGraph recipientProfiles items)) as Hlink.
  { apply links_elem. split; [done|]. split.
    - apply (link_end_kept recipientProfiles items inbound); [done | by left |].
      intros Heq. exists inbound. by split.
    - by apply (link_end_kept recipientProfiles items inbound); [| right |]. }
  assert (totalValue (links (buildGraph recipientProfiles items)) = JsNumber.NaN)
    as Htotal by by apply (totalValue_NaN _ inbound).
  split_and!; [done | done |]. by apply valueScaledHeight_NaN.
Qed.

Lemma SFcompare_refl x : JsNumber.isNaN x = false → SFcompare x x = Some Eq.
Proof.
  destruct x as [s|s| |s m e]; try done; intros _; simpl.
  - by destruct s.
  - rewrite Z.compare_refl, Pos.compare_cont_refl. by destruct s.
Qed.

Lemma le_refl x : JsNumber.isNaN x = false → JsNumber.le x x = true.
Proof. intros Hx. unfold JsNumber.le, SFleb. by rewrite SFcompare_refl. Qed.

Lemma max_cases x y :
  JsNumber.isNaN (JsMath.max x y) = false →
  JsMath.max x y = x ∨ (JsMath.max x y = y ∧ JsNumber.le x y = true).
Proof.
  unfold JsMath.max, JsNumber.le, SFleb.
  destruct (JsNumber.isNaN x) eqn:Hx; [done|].
  destruct (JsNumber.isNaN y) eqn:Hy; [done|]. simpl.
  destruct (SFcompare x y) as [[]|] eqn:Hcmp; intros _.
  - destruct x as [[]| | |]; try (by left).
    destruct y as [[]| | |]; try (by left). by right.
  - by right.
  - by left.
  - by destruct x, y.
Qed.

Lemma SFcompare_Gt_Lt x y : SFcompare x y = Some Gt → SFcompare y x = Some Lt.
Proof.
  destruct x as [sx|sx| |sx mx ex], y as [sy|sy| |sy my ey]; simpl; try done;
    try (by destruct sx, sy); try (by destruct sx); try (by destruct sy).
  rewrite (Z.compare_antisym ex ey).
  change (Pos.compare_cont Eq my mx) with (Pos.compare my mx).
  change (Pos.compare_cont Eq mx my) with (Pos.compare mx my).
  rewrite (Pos.compare_antisym mx my).
  destruct sx, sy; try done;
    destruct (ex ?= ey)%Z; simpl; try done;
    destruct (mx ?= my)%positive; simpl; done.
Qed.

Lemma min_le_l x y :
  JsNumber.isNaN (JsMath.min x y) = false → JsNumber.le (JsMath.min x y) x = true.
Proof.
  unfold JsMath.min.
  destruct (JsNumber.isNaN x) eqn:Hx; [done|].
  destruct (JsNumber.isNaN y) eqn:Hy; [done|]. simpl.
  destruct (SFcompare x y) as [[]|] eqn:Hcmp; intros Hres.
  - destruct x as [[]| | |]; try (by apply le_refl).
    destruct y as [[]| | |]; done.
  - by apply le_refl.
  - unfold JsNumber.le, SFleb. by rewrite (SFcompare_Gt_Lt x y Hcmp).
  - by destruct x, y.
Qed.

(** X18. Unless it is NaN, the height of the layout is the inner height of
    the container, or a value that the inner height is at most and that is
    at most six times the inner height. *)
Theorem layout_height_between_one_and_six innerHeight ls :
  JsNumber.isNaN (valueScaledHeight innerHeight ls) = false →
  valueScaledHeight innerHeight ls = innerHeight
  ∨ (JsNumber.le innerHeight (valueScaledHeight innerHeight ls) = true
     ∧ JsNumber.le (valueScaledHeight innerHeight ls)
         (JsMath.mul innerHeight (JsNumber.of_Z 6)) = true).
Proof.
  intros Hheight. unfold valueScaledHeight in *.
  destruct (max_cases _ _ Hheight) as [Heq | [Heq Hle]]; [by left|].
  right. rewrite Heq. split; [done|].
  apply min_le_l. rewrite Heq in Hheight. done.
Qed.
End LayoutHeight.

(** * The further properties on sample inputs *)

Section FurtherSamples.
Import Samples.

Ltac elem_by_compute :=
  apply list_elem_of_In; vm_compute; repeat (first [left; reflexivity | right]).

Lemma g1_alone : ∀ item, item ∈ [g1] → id item ≠ FUNDING_SOURCE_ID.
Proof. intros item ->%list_elem_of_singleton. vm_compute. discriminate. Qed.

(** X1, witness: the grant node of the worked example. *)
Lemma graph_nodes_come_from_input_witness :
  grantNode g1 ∈ nodes (buildGraph ∅ [g1])
  ∧ ((grantNode g1 = fundingSourceNode ∧ nodeId (grantNode g1) = FUNDING_SOURCE_ID)
     ∨ (∃ item, item ∈ [g1] ∧ grantNode g1 = grantNode item
                ∧ nodeId (grantNode g1) = id item)
     ∨ (∃ item, item ∈ [g1] ∧ isTerminal item = true
                ∧ grantNode g1 = recipientNode ∅ item
                ∧ nodeId (grantNode g1) = RECIPIENT_PREFIX +:+ recipient item)).
Proof.
  assert (grantNode g1 ∈ nodes (buildGraph ∅ [g1])) as Hnode by elem_by_compute.
  split; [done|]. exact (graph_nodes_come_from_input ∅ [g1] (grantNode g1) Hnode).
Defined.

(** X2, witness: the link into g1. *)
Lemma graph_links_join_graph_nodes_witness :
  {| source := FUNDING_SOURCE_ID; target := "g1"; value := JsNumber.of_Z 100 |}
    ∈ links (buildGraph ∅ [g1])
  ∧ ∃ node, node ∈ nodes (buildGraph ∅ [g1]) ∧ nodeId node = "g1".
Proof.
  assert ({| source := FUNDING_SOURCE_ID; target := "g1"; value := JsNumber.of_Z 100 |}
            ∈ links (buildGraph ∅ [g1])) as Hlink by elem_by_compute.
  split; [done|]. exact (proj2 (graph_links_join_graph_nodes ∅ [g1] _ Hlink)).
Defined.

(** X3, witness: the link from g1 to its recipient. *)
Lemma graph_links_come_from_grants_witness :
  {| source := "g1"; target := "recipient_0xabc"; value := JsNumber.of_Z 100 |}
    ∈ links (buildGraph ∅ [g1])
  ∧ ∃ item, item ∈ [g1] ∧ JsNumber.of_Z 100 = JsNumber.parseFloat (monthlyIncomingFlowRate item).
Proof.
  assert ({| source := "g1"; target := "recipient_0xabc"; value := JsNumber.of_Z 100 |}
            ∈ links (buildGraph ∅ [g1])) as Hlink by elem_by_compute.
  split; [done|].
  destruct (graph_links_come_from_grants ∅ [g1] _ Hlink) as (item & Hin & Hvalue & _).
  by exists item.
Defined.

(** X4, witness: g1 among two grants. *)
Lemma terminal_grant_links_reach_graph_witness :
  g1 ∈ [g1; fundedByG1] ∧ isTerminal g1 = true
  ∧ JsNumber.gt (JsNumber.parseFloat (monthlyIncomingFlowRate g1)) JsNumber.zero = true
  ∧ {| source := id g1; target := RECIPIENT_PREFIX +:+ recipient g1;
       value := JsNumber.parseFloat (monthlyIncomingFlowRate g1) |}
      ∈ links (buildGraph ∅ [g1; fundedByG1]).
Proof.
  assert (g1 ∈ [g1; fundedByG1]) as Hin by apply list_elem_of_here.
  assert (isTerminal g1 = true) as Hterm by (vm_compute; reflexivity).
  assert (JsNumber.gt (JsNumber.parseFloat (monthlyIncomingFlowRate g1)) JsNumber.zero
          = true) as Hpos by (vm_compute; reflexivity).
  split_and!; [done..|].
  exact (proj2 (terminal_grant_links_reach_graph ∅ [g1; fundedByG1] g1 Hin Hterm Hpos)).
Defined.

(** X5, witness: the worked example. *)
Lemma without_reserved_id_no_link_dropped_witness :
  (∀ item, item ∈ [g1] → id item ≠ FUNDING_SOURCE_ID)
  ∧ links (buildGraph ∅ [g1]) = linksBeforeFilter ∅ [g1].
Proof.
  split; [exact g1_alone|].
  exact (proj1 (without_reserved_id_no_link_dropped ∅ [g1] g1_alone)).
Defined.

(** X7, witness: a profile under an address that no terminal grant pays. *)
Lemma graph_reads_only_requested_profiles_witness :
  (∀ a, a ∈ uniqueRecipients [g1] →
        (∅ : gmap string NeynarUserProfile) !! a
        = ({[ "0xdef" := alice ]} : gmap string NeynarUserProfile) !! a)
  ∧ buildGraph ∅ [g1] = buildGraph {[ "0xdef" := alice ]} [g1].
Proof.
  assert (∀ a, a ∈ uniqueRecipients [g1] →
               (∅ : gmap string NeynarUserProfile) !! a
               = ({[ "0xdef" := alice ]} : gmap string NeynarUserProfile) !! a) as Hagree.
  { assert (uniqueRecipients [g1] = [ "0xabc" ]) as -> by (vm_compute; reflexivity).
    intros a ->%list_elem_of_singleton. vm_compute. reflexivity. }
  split; [done|].
  exact (graph_reads_only_requested_profiles ∅ {[ "0xdef" := alice ]} [g1] Hagree).
Defined.

(** X11, witness: the response spells the address of g1 in upper case. *)
Lemma fetched_profile_labels_recipient_witness :
  g1 ∈ [g1] ∧ isTerminal g1 = true
  ∧ decides [ ("0xABC", [alice]) ] (JsString.toLowerCase (recipient g1)) alice
  ∧ name (recipientNode
            (fetchRecipientProfiles [g1] (ProfilesBody [ ("0xABC", [alice]) ]) ∅) g1)
    = "Alice (alice)".
Proof.
  assert (g1 ∈ [g1]) as Hin by apply list_elem_of_here.
  assert (isTerminal g1 = true) as Hterm by (vm_compute; reflexivity).
  assert (decides [ ("0xABC", [alice]) ] (JsString.toLowerCase (recipient g1)) alice)
    as Hdecides.
  { exists [], "0xABC", [], []. split_and!; [reflexivity | vm_compute; reflexivity |].
    by intros ? ? ?%elem_of_nil. }
  split_and!; [done..|].
  exact (proj1 (fetched_profile_labels_recipient [g1] g1 [ ("0xABC", [alice]) ] ∅ alice
                  Hin Hterm Hdecides)).
Defined.


(** X15, witness: the page after the grants have arrived. *)
Lemma mounted_diagram_builds_graph_witness :
  App.DiagramBlock [g1] ∈ App.render (App.fetchData (App.Body [g1]) App.initialState)
  ∧ renderedGraph ∅ [g1] = Some (buildGraph ∅ [g1]).
Proof.
  assert (App.DiagramBlock [g1]
            ∈ App.render (App.fetchData (App.Body [g1]) App.initialState)) as Hblock
    by apply list_elem_of_here.
  split; [done|].
  exact (proj2 (proj2 (proj2 (proj2
           (mounted_diagram_builds_graph _ [g1] ∅ Hblock))))).
Defined.

(** X17, witness: g1 with the incoming rate abc in a container 600 high. *)
Lemma unparsable_rate_makes_height_NaN_witness :
  nanIncoming ∈ [nanIncoming]
  ∧ JsNumber.isNaN (JsNumber.parseFloat (monthlyIncomingFlowRate nanIncoming)) = true
  ∧ id nanIncoming ≠ FUNDING_SOURCE_ID
  ∧ valueScaledHeight (JsNumber.of_Z 600) (links (buildGraph ∅ [nanIncoming]))
    = JsNumber.NaN.
Proof.
  assert (nanIncoming ∈ [nanIncoming]) as Hin by apply list_elem_of_here.
  assert (JsNumber.isNaN (JsNumber.parseFloat (monthlyIncomingFlowRate nanIncoming))
          = true) as Hnan by (vm_compute; reflexivity).
  assert (id nanIncoming ≠ FUNDING_SOURCE_ID) as Hid by (vm_compute; discriminate).
  split_and!; [done..|].
  exact (proj2 (proj2 (unparsable_rate_makes_height_NaN ∅ [nanIncoming] nanIncoming
                         (JsNumber.of_Z 600) Hin Hnan Hid))).
Defined.

(** X18, witness: the worked example in a container 600 high; the total of
    200 is too small to stretch the layout. *)
Lemma layout_height_between_one_and_six_witness :
  JsNumber.isNaN (valueScaledHeight (JsNumber.of_Z 600) (links (buildGraph ∅ [g1]))) = false
  ∧ valueScaledHeight (JsNumber.of_Z 600) (links (buildGraph ∅ [g1])) = JsNumber.of_Z 600
  ∧ (valueScaledHeight (JsNumber.of_Z 600) (links (buildGraph ∅ [g1])) = JsNumber.of_Z 600
     ∨ (JsNumber.le (JsNumber.of_Z 600)
          (valueScaledHeight (JsNumber.of_Z 600) (links (buildGraph ∅ [g1]))) = true
        ∧ JsNumber.le (valueScaledHeight (JsNumber.of_Z 600) (links (buildGraph ∅ [g1])))
            (JsMath.mul (JsNumber.of_Z 600) (JsNumber.of_Z 6)) = true)).
Proof.
  assert (JsNumber.isNaN (valueScaledHeight (JsNumber.of_Z 600)
                            (links (buildGraph ∅ [g1]))) = false) as Hheight
    by (vm_compute; reflexivity).
  split_and!; [done | vm_compute; reflexivity |].
  exact (layout_height_between_one_and_six (JsNumber.of_Z 600)
           (links (buildGraph ∅ [g1])) Hheight).
Defined.
End FurtherSamples.
